(** * slurm-monitor: the parse-and-reconcile core, embedded and verified

    A shallow embedding of the text-processing core of the SLURM monitor
    extension: the state normaliser and the record parsers of
    [slurmService.ts], the tree provider of [slurmProvider.ts] and the
    notification pass of [extension.ts].

    Conventions of the embedding.
    - A JavaScript string is a [string]; every [ascii] stands for one
      UTF-16 code unit below 256.  White space is therefore the set
      TAB, LF, VT, FF, CR, SP and NBSP (the members of the ECMAScript
      WhiteSpace and LineTerminator productions in that range).
    - [undefined] is [None]; a value [x || d] is [d] when [x] is
      [undefined] or the empty string.
    - The plain object [STATE_MAP] and the [previousJobStates] table are
      finite maps ([gmap]); a [Map] whose iteration order is observed is
      an association list in insertion order ([JsMap]).
    - [async] functions are modelled by what they compute from the
      outcome of the command they await. *)

From Stdlib Require Import ZArith Ascii String.
From stdpp Require Import base option list strings pretty gmap.

(** ** JavaScript strings *)

Module Js.

Definition code (c : ascii) : N := N_of_ascii c.

(** [A-Z] *)
Definition is_upper (c : ascii) : bool :=
  ((65 <=? code c) && (code c <=? 90))%N.

Definition is_lower (c : ascii) : bool :=
  ((97 <=? code c) && (code c <=? 122))%N.

Definition is_digit (c : ascii) : bool :=
  ((48 <=? code c) && (code c <=? 57))%N.

(** [\w] *)
Definition is_word (c : ascii) : bool :=
  is_upper c || is_lower c || is_digit c || (code c =? 95)%N.

(** [\s], and the characters removed by [String.prototype.trim] *)
Definition is_space (c : ascii) : bool :=
  ((9 <=? code c) && (code c <=? 13) || (code c =? 32) || (code c =? 160))%N.

(** Line terminators: the characters [.] does not match. *)
Definition is_newline (c : ascii) : bool :=
  ((code c =? 10) || (code c =? 13))%N.

Definition eqc (a b : ascii) : bool := Ascii.eqb a b.

(** [x || d] on strings: the empty string is falsy. *)
Definition or_else (x : option string) (d : string) : string :=
  match x with
  | Some (String c s) => String c s
  | _ => d
  end.

Definition truthy (s : string) : bool :=
  match s with EmptyString => false | String _ _ => true end.

(** [s.split(sep)] for a separator that matches exactly one character
    out of a class: a one-character string, or a regular expression made
    of one character class. The result is never empty; splitting the
    empty string gives one empty piece. *)
Fixpoint split_by (p : ascii → bool) (s : string) : list string :=
  match s with
  | EmptyString => [EmptyString]
  | String c s' =>
      if p c then EmptyString :: split_by p s'
      else match split_by p s' with
           | [] => [String c EmptyString]
           | h :: t => String c h :: t
           end
  end.

Definition split (sep : ascii) (s : string) : list string :=
  split_by (eqc sep) s.

(** [a.join(sep)] *)
Fixpoint join (sep : string) (l : list string) : string :=
  match l with
  | [] => EmptyString
  | [x] => x
  | x :: l' => x +:+ sep +:+ join sep l'
  end.

Fixpoint trim_start (s : string) : string :=
  match s with
  | EmptyString => EmptyString
  | String c s' => if is_space c then trim_start s' else s
  end.

Fixpoint trim_end (s : string) : string :=
  match s with
  | EmptyString => EmptyString
  | String c s' =>
      match trim_end s' with
      | EmptyString => if is_space c then EmptyString else String c EmptyString
      | r => String c r
      end
  end.

(** [s.trim()] *)
Definition trim (s : string) : string := trim_end (trim_start s).

(** [s.startsWith(p)] *)
Fixpoint starts_with (p s : string) : bool :=
  match p, s with
  | EmptyString, _ => true
  | String a p', String b s' => eqc a b && starts_with p' s'
  | String _ _, EmptyString => false
  end.

(** [s.includes(p)] *)
Fixpoint includes (p s : string) : bool :=
  starts_with p s ||
  match s with
  | EmptyString => false
  | String _ s' => includes p s'
  end.

(** [s.includes(c)] for a one-character [c] *)
Definition includes_char (c : ascii) (s : string) : bool :=
  includes (String c EmptyString) s.

(** A JavaScript number as far as the parsers produce one: [NaN] or an
    integer. ([parseInt] yields no fraction; integers are exact below
    2^53, and the sign of zero is not tracked.) *)
Inductive num : Type :=
| NaN
| Num (z : Z).

Definition digit_val (c : ascii) : Z := Z.of_N (code c) - 48.

(** The value of the longest prefix of decimal digits, and whether there
    was a digit at all. *)
Fixpoint digits (acc : Z) (seen : bool) (s : string) : option Z :=
  match s with
  | String c s' =>
      if is_digit c then digits (10 * acc + digit_val c) true s'
      else if seen then Some acc else None
  | EmptyString => if seen then Some acc else None
  end.

(** [parseInt(s, 10)]: leading white space is skipped, then an optional
    sign, then at least one digit; whatever follows is ignored. *)
Definition parseInt (s : string) : num :=
  match trim_start s with
  | String "-" r => match digits 0 false r with Some z => Num (- z) | None => NaN end
  | String "+" r => match digits 0 false r with Some z => Num z | None => NaN end
  | r => match digits 0 false r with Some z => Num z | None => NaN end
  end.

(** [n || 0] on numbers: [NaN] and zero are falsy. *)
Definition or_zero (n : num) : num :=
  match n with
  | NaN => Num 0
  | Num z => Num z
  end.

(** [a.slice(0, n)] for an integral [n]: a negative end counts from the
    end of the array. *)
Definition slice0 {A} (n : Z) (l : list A) : list A :=
  if (n <? 0)%Z then take (Z.to_nat (Z.of_nat (length l) + n)) l
  else take (Z.to_nat n) l.

End Js.

(** ** The state normaliser ([slurmService.ts]) *)

(** The entries of [STATE_MAP], in source order. *)
Definition STATE_TABLE : list (string * string) :=
  [ ("PD", "PENDING"); ("R", "RUNNING"); ("S", "SUSPENDED"); ("CG", "COMPLETING");
    ("CD", "COMPLETED"); ("CA", "CANCELLED"); ("F", "FAILED"); ("TO", "TIMEOUT");
    ("NF", "NODE_FAIL"); ("PR", "PREEMPTED"); ("OOM", "OUT_OF_MEMORY");
    ("BF", "BOOT_FAIL"); ("DL", "DEADLINE"); ("RQ", "REQUEUED"); ("RS", "RESIZING");
    ("RV", "REVOKED"); ("SI", "SIGNALING"); ("SE", "SPECIAL_EXIT"); ("SO", "STAGE_OUT");
    ("ST", "STOPPED") ].

Definition STATE_MAP : gmap string string := list_to_map STATE_TABLE.

(** [STATE_MAP[code.split(/[^A-Z]/)[0]] || code]. The key handed to the
    object is a run of capital letters, so no property inherited from
    [Object.prototype] (all of which contain a small letter or an
    underscore) can answer the lookup. *)
Definition parseJobState (code : string) : string :=
  Js.or_else (Js.split_by (λ c, negb (Js.is_upper c)) code !! 0%nat ≫= λ k, STATE_MAP !! k) code.

(** The leading alphabetic run of a state code: its longest prefix of
    letters [A]..[Z], the alphabet the scheduler writes its codes in. *)
Fixpoint leading_run (s : string) : string :=
  match s with
  | String c s' => if Js.is_upper c then String c (leading_run s') else EmptyString
  | EmptyString => EmptyString
  end.

(** ** Data model ([types.ts]) *)

(** What an awaited call yields: a value, or a thrown [Error] with its
    message. *)
Inductive outcome (A : Type) : Type :=
| Returns (a : A)
| Throws (message : string).
Arguments Returns {A} a.
Arguments Throws {A} message.

Record SlurmConfig : Type := {
  refreshInterval : Z;
  autoRefresh : bool;
  sshHost : string;
  sshUser : string;
  sshKeyPath : string;
  squeueFormat : string;
  showAllUsers : bool;
  partitionFilter : list string;
  maxJobsDisplayed : Z;
  enableNotifications : bool;
  notifyOnComplete : bool;
  notifyOnFail : bool;
  notifyOnStart : bool;
}.

(** The defaults of [loadConfig]. *)
Definition defaultConfig : SlurmConfig := {|
  refreshInterval := 30;
  autoRefresh := true;
  sshHost := "";
  sshUser := "";
  sshKeyPath := "";
  squeueFormat := "%i|%j|%P|%T|%M|%l|%D|%R|%S|%e";
  showAllUsers := false;
  partitionFilter := [];
  maxJobsDisplayed := 100;
  enableNotifications := true;
  notifyOnComplete := true;
  notifyOnFail := true;
  notifyOnStart := false;
|}.

Record CommandResult : Type := {
  success : bool;
  stdout : string;
  stderr : string;
  exitCode : Z;
}.

(** The fields of [SlurmJob] that the queue and accounting parsers and the
    tree provider read or write; the remaining optional fields are only
    ever filled by the detail panel. *)
Record SlurmJob : Type := {
  jobId : string;
  name : string;
  partition : string;
  state : string;
  stateRaw : string;
  timeUsed : string;
  timeLimit : string;
  nodes : Js.num;
  nodelist : string;
  startTime : string;
  endTime : string;
  arrayJobId : option string;
  arrayTaskId : option string;
  jobExitCode : option string;
}.

Record JobFilter : Type := {
  f_user : option string;
  f_partition : option (list string);
  f_state : option (list string);
  f_name : option string;
  f_jobIds : option (list string);
  f_startTime : option string;
  f_endTime : option string;
}.

Definition emptyFilter : JobFilter :=
  {| f_user := None; f_partition := None; f_state := None; f_name := None;
     f_jobIds := None; f_startTime := None; f_endTime := None |}.

Global Instance num_eq_dec : EqDecision Js.num.
Proof. solve_decision. Defined.
Global Instance SlurmJob_eq_dec : EqDecision SlurmJob.
Proof. solve_decision. Defined.

(** ** Running a command ([executeCommand]) *)

(** The value [execAsync] rejects with: an [Error] that may carry the
    captured streams and an exit code. *)
Record ExecError : Type := {
  err_message : string;
  err_stdout : option string;
  err_stderr : option string;
  err_code : option Z;
}.

Inductive ExecOutcome : Type :=
| Resolved (out err : string)
| Rejected (e : ExecError).

Definition executeCommand (o : ExecOutcome) : CommandResult :=
  match o with
  | Resolved out err =>
      {| success := true; stdout := Js.trim out; stderr := Js.trim err; exitCode := 0 |}
  | Rejected e =>
      {| success := false;
         stdout := Js.or_else (Js.trim <$> err_stdout e) "";
         stderr := Js.or_else (Js.trim <$> err_stderr e) (err_message e);
         exitCode := match err_code e with
                     | Some c => if (c =? 0)%Z then 1 else c
                     | None => 1
                     end |}
  end.

(** ** The queue listing ([getJobs]) *)

Definition LF : ascii := "010"%char.
Definition nl : string := String LF EmptyString.

(** [f[i]?.trim() || ''] *)
Definition field (f : list string) (i : nat) : string :=
  Js.or_else (Js.trim <$> f !! i) "".

(** The body of the [map] callback in [getJobs]. *)
Definition parseSqueueLine (line : string) : SlurmJob :=
  let f := Js.split "|" line in
  {| jobId := field f 0; name := field f 1; partition := field f 2;
     state := parseJobState (field f 3); stateRaw := field f 3;
     timeUsed := field f 4; timeLimit := field f 5;
     nodes := Js.parseInt (Js.or_else (Js.trim <$> f !! 6%nat) "0");
     nodelist := field f 7;
     startTime := field f 8; endTime := field f 9;
     arrayJobId := None; arrayTaskId := None; jobExitCode := None |}.

(** The [filter] callback [l => l.trim()]: a line is kept when it has a
    character that is not white space. *)
Definition well_formed (line : string) : bool := Js.truthy (Js.trim line).

Section getJobs.

(** [new RegExp(source, 'i')] and its [test] method, as supplied by the
    runtime: compiling may throw a [SyntaxError]. *)
Variable RegExp_i : string → outcome (string → bool).

(** [getJobs(filter)], from the result of the [squeue] command. The
    filter's user, partition, state and job-id entries only add
    arguments to that command. *)
Definition getJobs (cfg : SlurmConfig) (filter : option JobFilter)
    (result : CommandResult) : outcome (list SlurmJob) :=
  if negb (success result) then Throws ("Failed to get jobs: " +:+ stderr result)
  else if negb (Js.truthy (stdout result)) then Returns []
  else
    let jobs :=
      parseSqueueLine <$>
        List.filter well_formed (Js.split LF (stdout result)) in
    let limit := Js.slice0 (maxJobsDisplayed cfg) in
    match filter ≫= f_name with
    | Some (String c s) =>
        match RegExp_i (String c s) with
        | Returns test => Returns (limit (List.filter (λ j, test (name j)) jobs))
        | Throws msg => Throws msg
        end
    | _ => Returns (limit jobs)
    end.

(** [getMyJobs(filter)]: the same query, for [filter.user] or else the
    current user. *)
Definition getMyJobs (me : string) (cfg : SlurmConfig) (filter : option JobFilter)
    (result : CommandResult) : outcome (list SlurmJob) :=
  let base := default emptyFilter filter in
  getJobs cfg
    (Some {| f_user := Some (Js.or_else (f_user base) me);
             f_partition := f_partition base; f_state := f_state base;
             f_name := f_name base; f_jobIds := f_jobIds base;
             f_startTime := f_startTime base; f_endTime := f_endTime base |})
    result.

End getJobs.

(** ** Accounting rows ([getJobAccounting]) *)

(** [f[i]] where the row filter has made sure that the field exists. *)
Definition col (f : list string) (i : nat) : string := default "" (f !! i).

Definition accountingRow (l : string) : bool :=
  (10 <=? length (Js.split "|" l))%nat &&
  negb (Js.includes_char "." (col (Js.split "|" l) 0)).

Definition parseSacctLine (line : string) : SlurmJob :=
  let f := Js.split "|" line in
  {| jobId := col f 0; name := col f 1; partition := col f 2;
     state := parseJobState (col f 3); stateRaw := col f 3;
     timeUsed := col f 4; timeLimit := col f 5;
     nodes := Js.or_zero (Js.parseInt (col f 6));
     nodelist := col f 7; startTime := col f 8; endTime := col f 9;
     arrayJobId := None; arrayTaskId := None; jobExitCode := f !! 10%nat |}.

Definition getJobAccounting (result : CommandResult) : outcome (list SlurmJob) :=
  if negb (success result) then Throws ("Failed to get accounting data: " +:+ stderr result)
  else Returns (parseSacctLine <$> List.filter accountingRow (Js.split LF (stdout result))).

(** ** The detailed dump ([getJobDetails]) *)

Module Dump.

(** Case folding of the [i] flag, for patterns made of ASCII characters:
    only the letters [a]..[z] fold, and no character above 127 folds onto
    an ASCII one. *)
Definition fold_case (c : ascii) : ascii :=
  if Js.is_lower c then ascii_of_N (Js.code c - 32) else c.

(** What is left of [s] after a case-insensitive occurrence of [k] at its
    start. *)
Fixpoint after_key (k s : string) : option string :=
  match k, s with
  | EmptyString, _ => Some s
  | String a k', String b s' =>
      if Js.eqc (fold_case a) (fold_case b) then after_key k' s' else None
  | String _ _, EmptyString => None
  end.

Fixpoint take_while (p : ascii → bool) (s : string) : string :=
  match s with
  | String c s' => if p c then String c (take_while p s') else EmptyString
  | EmptyString => EmptyString
  end.

Fixpoint drop_while (p : ascii → bool) (s : string) : string :=
  match s with
  | String c s' => if p c then drop_while p s' else s
  | EmptyString => EmptyString
  end.

(** The first group of [k=([^\s]+)] matched at the start of [s]. *)
Definition bounded_at (k s : string) : option string :=
  match after_key k s with
  | Some (String "=" r) =>
      match take_while (λ c, negb (Js.is_space c)) r with
      | EmptyString => None
      | v => Some v
      end
  | _ => None
  end.

(** The look-ahead [(?=\s+\w+=|$)] at the start of [s]. *)
Definition next_key_or_end (s : string) : bool :=
  match s with
  | EmptyString => true
  | String c _ =>
      Js.is_space c &&
      match drop_while Js.is_space s with
      | String d r =>
          Js.is_word d &&
          match drop_while Js.is_word r with
          | String "=" _ => true
          | _ => false
          end
      | EmptyString => false
      end
  end.

(** The lazy group [(.+?)] followed by that look-ahead: the shortest
    non-empty run without a line terminator after which the look-ahead
    holds. *)
Fixpoint lazy_value (s : string) : option string :=
  match s with
  | EmptyString => None
  | String c s' =>
      if Js.is_newline c then None
      else if next_key_or_end s' then Some (String c EmptyString)
      else String c <$> lazy_value s'
  end.

Definition unbounded_at (k s : string) : option string :=
  match after_key k s with
  | Some (String "=" r) => lazy_value r
  | _ => None
  end.

(** [o.match(re)?.[1]] for a pattern that cannot match the empty string:
    the group of the leftmost match. *)
Fixpoint first_match (at_ : string → option string) (o : string) : option string :=
  match at_ o with
  | Some v => Some v
  | None =>
      match o with
      | String _ o' => first_match at_ o'
      | EmptyString => None
      end
  end.

(** The three accessors local to [getJobDetails]. *)
Definition get (o k : string) : string :=
  Js.or_else (first_match (bounded_at k) o) "".

Definition getSpaces (o k : string) : string :=
  Js.or_else (Js.trim <$> first_match (unbounded_at k) o) "".

Definition getInt (o k : string) : Z :=
  match Js.parseInt (get o k) with
  | Js.Num z => z
  | Js.NaN => 0
  end.

End Dump.

(** The fields of [SlurmJobDetails] shown by the detail panel or used to
    resubmit; the other fields of the interface are read with the same
    three accessors. *)
Record SlurmJobDetails : Type := {
  d_jobId : string;
  d_name : string;
  d_partition : string;
  d_state : string;
  d_stateRaw : string;
  d_user : string;
  d_account : string;
  d_qos : string;
  d_priority : Z;
  d_dependency : string;
  d_submitTime : string;
  d_startTime : string;
  d_endTime : string;
  d_timeUsed : string;
  d_timeLimit : string;
  d_nodes : Z;
  d_numCPUs : Z;
  d_cpusPerTask : Z;
  d_nodelist : string;
  d_allocNode : string;
  d_memory : string;
  d_gres : string;
  d_workDir : string;
  d_command : string;
  d_stdoutPath : string;
  d_stderrPath : string;
  d_batchFlag : bool;
  d_requeue : bool;
  d_exitCode : string;
  d_submitLine : string;
  d_arrayJobId : string;
  d_arrayTaskId : string;
}.

Definition str_or (a b : string) : string := Js.or_else (Some a) b.

(** The marker [scontrol] prints for a job it does not know. *)
Definition INVALID_JOB_ID : string := "Invalid job id".

(** [getJobDetails(jobId)], from the result of [scontrol show job]; [None]
    is [null]. *)
Definition getJobDetails (result : CommandResult) : option SlurmJobDetails :=
  if negb (success result) || negb (Js.truthy (stdout result))
     || Js.includes INVALID_JOB_ID (stdout result)
  then None
  else
    let o := stdout result in
    let get := Dump.get o in
    let getSpaces := Dump.getSpaces o in
    let getInt := Dump.getInt o in
    let stateRaw := get "JobState" in
    Some {|
      d_jobId := get "JobId"; d_name := get "JobName"; d_partition := get "Partition";
      d_state := parseJobState stateRaw; d_stateRaw := stateRaw;
      d_user := default "" (Js.split "(" (get "UserId") !! 0%nat);
      d_account := get "Account"; d_qos := get "QOS";
      d_priority := getInt "Priority"; d_dependency := get "Dependency";
      d_submitTime := get "SubmitTime";
      d_startTime := get "StartTime"; d_endTime := get "EndTime";
      d_timeUsed := get "RunTime"; d_timeLimit := get "TimeLimit";
      d_nodes := getInt "NumNodes"; d_numCPUs := getInt "NumCPUs";
      d_cpusPerTask := (if (getInt "CPUs/Task" =? 0)%Z then 1 else getInt "CPUs/Task");
      d_nodelist := get "NodeList";
      d_allocNode := default "" (Js.split ":" (get "AllocNode:Sid") !! 0%nat);
      d_memory := str_or (get "MinMemoryNode") (get "MinMemoryCPU");
      d_gres := str_or (get "Gres") (get "TresPerNode");
      d_workDir := getSpaces "WorkDir"; d_command := getSpaces "Command";
      d_stdoutPath := getSpaces "StdOut"; d_stderrPath := getSpaces "StdErr";
      d_batchFlag := bool_decide (get "BatchFlag" = "1");
      d_requeue := bool_decide (get "Requeue" = "1");
      d_exitCode := get "ExitCode";
      d_submitLine := str_or (getSpaces "SubmitLine") (getSpaces "Command");
      d_arrayJobId := get "ArrayJobId"; d_arrayTaskId := get "ArrayTaskId";
    |}.

(** ** Cancelling ([cancelJob]) *)

(** [cancelJob(jobId)], from the result of [scancel]. *)
Definition cancelJob (jobId : string) (result : CommandResult) : outcome bool :=
  if negb (success result) && Js.truthy (stderr result)
  then Throws ("Failed to cancel job " +:+ jobId +:+ ": " +:+ stderr result)
  else Returns true.

(** ** [Map]: an association list in insertion order *)

Module JsMap.

Section map.
Context {K V : Type} `{EqDecision K}.

Definition t : Type := list (K * V).

Definition empty : t := [].

Fixpoint get (k : K) (m : t) : option V :=
  match m with
  | [] => None
  | (k', v) :: m' => if decide (k' = k) then Some v else get k m'
  end.

Definition has (k : K) (m : t) : bool :=
  match get k m with Some _ => true | None => false end.

(** [m.set(k, v)]: a known key keeps its place, a new key goes last. *)
Fixpoint set (k : K) (v : V) (m : t) : t :=
  match m with
  | [] => [(k, v)]
  | (k', v') :: m' => if decide (k' = k) then (k, v) :: m' else (k', v') :: set k v m'
  end.

(** [new Map(entries)] *)
Definition of_entries (l : list (K * V)) : t :=
  foldl (λ m kv, set kv.1 kv.2 m) empty l.

End map.

Arguments t : clear implicits.

End JsMap.

(** ** The tree provider ([slurmProvider.ts]) *)

Inductive TreeItemCollapsibleState : Type :=
| NotCollapsible
| Collapsed
| Expanded.

(** The constructor arguments of a [JobTreeItem]; label, icon, description
    and tooltip are functions of these. *)
Record JobTreeItem : Type := {
  job : SlurmJob;
  collapsibleState : TreeItemCollapsibleState;
  isArrayParent : bool;
  arrayTasks : list SlurmJob;
}.

(** [new JobTreeItem(j)] *)
Definition jobItem (j : SlurmJob) : JobTreeItem :=
  {| job := j; collapsibleState := NotCollapsible; isArrayParent := false; arrayTasks := [] |}.

(** [new JobTreeItem({ ...first, arrayJobId: id }, Collapsed, true, tasks)] *)
Definition arrayParentItem (id : string) (first : SlurmJob) (tasks : list SlurmJob) : JobTreeItem :=
  {| job := {| jobId := jobId first; name := name first; partition := partition first;
               state := state first; stateRaw := stateRaw first;
               timeUsed := timeUsed first; timeLimit := timeLimit first;
               nodes := nodes first; nodelist := nodelist first;
               startTime := startTime first; endTime := endTime first;
               arrayJobId := Some id; arrayTaskId := arrayTaskId first;
               jobExitCode := jobExitCode first |};
     collapsibleState := Collapsed; isArrayParent := true; arrayTasks := tasks |}.

Definition jobItem_label (i : JobTreeItem) : string :=
  str_or (name (job i)) (jobId (job i)).

Definition jobItem_id (i : JobTreeItem) : string :=
  if isArrayParent i
  then "array-" +:+ Js.or_else (arrayJobId (job i)) (jobId (job i))
  else jobId (job i).

(** The constructor arguments of a [CategoryTreeItem]. *)
Record CategoryTreeItem : Type := {
  cat_state : string;
  cat_count : nat;
}.

Definition category_description (c : CategoryTreeItem) : string :=
  "(" +:+ pretty (cat_count c) +:+ ")".

Inductive TreeItem : Type :=
| MessageItem (label icon : string)
| JobNode (i : JobTreeItem)
| CategoryNode (c : CategoryTreeItem).

Record SlurmJobsProvider : Type := {
  jobs : list SlurmJob;
  groupByState : bool;
  groupArrayJobs : bool;
  lastError : option string;
  isLoading : bool;
  filter_ : JobFilter;
  showOnlyMyJobs : bool;
}.

Definition newProvider (mine : bool) : SlurmJobsProvider :=
  {| jobs := []; groupByState := true; groupArrayJobs := true; lastError := None;
     isLoading := false; filter_ := emptyFilter; showOnlyMyJobs := mine |}.

Definition toggleGrouping (p : SlurmJobsProvider) : SlurmJobsProvider :=
  {| jobs := jobs p; groupByState := negb (groupByState p);
     groupArrayJobs := groupArrayJobs p; lastError := lastError p;
     isLoading := isLoading p; filter_ := filter_ p; showOnlyMyJobs := showOnlyMyJobs p |}.

Definition toggleArrayGrouping (p : SlurmJobsProvider) : SlurmJobsProvider :=
  {| jobs := jobs p; groupByState := groupByState p;
     groupArrayJobs := negb (groupArrayJobs p); lastError := lastError p;
     isLoading := isLoading p; filter_ := filter_ p; showOnlyMyJobs := showOnlyMyJobs p |}.

Definition setFilter (f : JobFilter) (p : SlurmJobsProvider) : SlurmJobsProvider :=
  {| jobs := jobs p; groupByState := groupByState p;
     groupArrayJobs := groupArrayJobs p; lastError := lastError p;
     isLoading := isLoading p; filter_ := f; showOnlyMyJobs := showOnlyMyJobs p |}.

(** [getJobCounts()]: [m.set(j.state, (m.get(j.state) || 0) + 1)] over the
    jobs. *)
Definition getJobCounts (p : SlurmJobsProvider) : JsMap.t string nat :=
  foldl (λ m j, JsMap.set (state j) (default 0 (JsMap.get (state j) m) + 1) m)
        JsMap.empty (jobs p).

(** The service the provider is constructed with. *)
Record SlurmService : Type := {
  svc_getMyJobs : JobFilter → outcome (list SlurmJob);
  svc_getJobs : JobFilter → outcome (list SlurmJob);
}.

(** The call awaited by [refresh]. *)
Definition fetch (svc : SlurmService) (p : SlurmJobsProvider) : outcome (list SlurmJob) :=
  if showOnlyMyJobs p then svc_getMyJobs svc (filter_ p) else svc_getJobs svc (filter_ p).

(** The provider while [refresh] awaits the service. *)
Definition refresh_begin (p : SlurmJobsProvider) : SlurmJobsProvider :=
  {| jobs := jobs p; groupByState := groupByState p;
     groupArrayJobs := groupArrayJobs p; lastError := lastError p;
     isLoading := true; filter_ := filter_ p; showOnlyMyJobs := showOnlyMyJobs p |}.

(** [refresh()], once the service has answered. *)
Definition refresh (svc : SlurmService) (p : SlurmJobsProvider) : SlurmJobsProvider :=
  let p1 := refresh_begin p in
  match fetch svc p1 with
  | Returns js =>
      {| jobs := js; groupByState := groupByState p1;
         groupArrayJobs := groupArrayJobs p1; lastError := None;
         isLoading := false; filter_ := filter_ p1; showOnlyMyJobs := showOnlyMyJobs p1 |}
  | Throws message =>
      {| jobs := []; groupByState := groupByState p1;
         groupArrayJobs := groupArrayJobs p1; lastError := Some message;
         isLoading := false; filter_ := filter_ p1; showOnlyMyJobs := showOnlyMyJobs p1 |}
  end.

(** [job.jobId.includes('_') ? job.jobId.split('_')[0] : job.arrayJobId],
    as tested by [if (arrayId)]: an empty id counts as none. *)
Definition arrayIdOf (j : SlurmJob) : option string :=
  match (if Js.includes_char "_" (jobId j)
         then Js.split "_" (jobId j) !! 0%nat
         else arrayJobId j) with
  | Some (String c s) => Some (String c s)
  | _ => None
  end.

(** One turn of the loop of [getJobItems] over the jobs. *)
Definition groupStep (acc : JsMap.t string (list SlurmJob) * list SlurmJob) (j : SlurmJob)
    : JsMap.t string (list SlurmJob) * list SlurmJob :=
  match arrayIdOf j with
  | Some id =>
      let groups := if JsMap.has id acc.1 then acc.1 else JsMap.set id [] acc.1 in
      (JsMap.set id (default [] (JsMap.get id groups) ++ [j]) groups, acc.2)
  | None => (acc.1, acc.2 ++ [j])
  end.

(** The item pushed for one entry of [groups]. (An entry always has a
    task, see [groups_nonempty].) *)
Definition groupItem (entry : string * list SlurmJob) : list JobTreeItem :=
  match entry.2 with
  | [] => []
  | [t] => [jobItem t]
  | t :: _ => [arrayParentItem entry.1 t entry.2]
  end.

Definition getJobItems (p : SlurmJobsProvider) (js : list SlurmJob) : list JobTreeItem :=
  if negb (groupArrayJobs p) then jobItem <$> js
  else
    let '(groups, regular) := foldl groupStep (JsMap.empty, []) js in
    (groups ≫= groupItem) ++ (jobItem <$> regular).

Definition order : list string :=
  ["RUNNING"; "PENDING"; "COMPLETING"; "COMPLETED"; "FAILED"; "CANCELLED"; "TIMEOUT"].

Definition getCategoryItems (p : SlurmJobsProvider) : list CategoryTreeItem :=
  let counts := getJobCounts p in
  let items :=
    (λ s, {| cat_state := s; cat_count := default 0 (JsMap.get s counts) |}) <$>
      List.filter (λ s, match JsMap.get s counts with Some (S _) => true | _ => false end) order in
  let otherCount :=
    foldl (λ sum sc, sum + sc.2) 0
          (List.filter (λ sc, negb (bool_decide (sc.1 ∈ order))) counts) in
  if (0 <? otherCount)%nat
  then items ++ [{| cat_state := "OTHER"; cat_count := otherCount |}]
  else items.

Definition getChildren (p : SlurmJobsProvider) (element : option TreeItem) : list TreeItem :=
  if isLoading p then [MessageItem "Loading..." "loading~spin"]
  else match lastError p with
  | Some (String c e) => [MessageItem ("Error: " +:+ String c e) "error"]
  | _ =>
    match element with
    | None =>
        match jobs p with
        | [] => [MessageItem "No jobs found" "info"]
        | _ => if groupByState p then CategoryNode <$> getCategoryItems p
               else JobNode <$> getJobItems p (jobs p)
        end
    | Some (JobNode i) =>
        if isArrayParent i then (λ t, JobNode (jobItem t)) <$> arrayTasks i else []
    | Some (CategoryNode c) =>
        JobNode <$> getJobItems p (List.filter (λ j, bool_decide (state j = cat_state c)) (jobs p))
    | Some (MessageItem _ _) => []
    end
  end.

(** ** Notifications ([extension.ts]) *)

(** One constructor per message the pass can show. *)
Inductive Notification : Type :=
| Started (jobId name : string)
| Completed (jobId name : string)
| Failed (jobId name state : string).

Definition to_lower (c : ascii) : ascii :=
  if Js.is_upper c then ascii_of_N (Js.code c + 32) else c.

Fixpoint toLowerCase (s : string) : string :=
  match s with
  | String c s' => String (to_lower c) (toLowerCase s')
  | EmptyString => EmptyString
  end.

(** The text handed to [showInformationMessage] or [showWarningMessage]. *)
Definition notification_text (n : Notification) : string :=
  match n with
  | Started id nm => "Job " +:+ id +:+ " (" +:+ nm +:+ ") started running"
  | Completed id nm => "Job " +:+ id +:+ " (" +:+ nm +:+ ") completed"
  | Failed id nm st => "Job " +:+ id +:+ " (" +:+ nm +:+ ") " +:+ toLowerCase st
  end.

(** [new Map(jobs.map(j => [j.jobId, j]))] *)
Definition jobMap (js : list SlurmJob) : JsMap.t string SlurmJob :=
  JsMap.of_entries ((λ j, (jobId j, j)) <$> js).

Definition isFailure (st : string) : bool :=
  bool_decide (st = "FAILED") || bool_decide (st = "TIMEOUT")
  || bool_decide (st = "OUT_OF_MEMORY") || bool_decide (st = "NODE_FAIL").

(** The last loop of [checkJobStateChanges]: failure warnings, and the
    update of [previousJobStates]. *)
Definition failStep (cfg : SlurmConfig)
    (acc : list Notification * gmap string string) (j : SlurmJob)
    : list Notification * gmap string string :=
  let prevState := acc.2 !! jobId j in
  let shown :=
    if notifyOnFail cfg && isFailure (state j) then
      match prevState with
      | Some (String c s) =>
          if bool_decide (String c s ≠ state j)
          then [Failed (jobId j) (name j) (state j)] else []
      | _ => []
      end
    else [] in
  (acc.1 ++ shown, <[jobId j := state j]> acc.2).

(** The first loop of [checkJobStateChanges], over the entries of
    [newJobMap]: jobs that started. *)
Definition startedStep (cfg : SlurmConfig) (previousJobStates : gmap string string)
    (oldJobMap : JsMap.t string SlurmJob) (entry : string * SlurmJob) : list Notification :=
  let oldJob := JsMap.get entry.1 oldJobMap in
  let prevState := previousJobStates !! entry.1 in
  if notifyOnStart cfg && bool_decide (state entry.2 = "RUNNING")
     && (bool_decide (prevState = Some "PENDING")
         || bool_decide (state <$> oldJob = Some "PENDING"))
  then [Started entry.1 (name entry.2)] else [].

(** The second loop, over the entries of [oldJobMap]: jobs that are gone. *)
Definition completedStep (cfg : SlurmConfig) (newJobMap : JsMap.t string SlurmJob)
    (entry : string * SlurmJob) : list Notification :=
  if negb (JsMap.has entry.1 newJobMap)
  then if notifyOnComplete cfg
          && (bool_decide (state entry.2 = "RUNNING")
              || bool_decide (state entry.2 = "COMPLETING"))
       then [Completed entry.1 (name entry.2)] else []
  else [].

(** [checkJobStateChanges(oldJobs, newJobs)]: the notifications shown, in
    order, and [previousJobStates] afterwards. *)
Definition checkJobStateChanges (cfg : SlurmConfig) (previousJobStates : gmap string string)
    (oldJobs newJobs : list SlurmJob) : list Notification * gmap string string :=
  if negb (enableNotifications cfg) then ([], previousJobStates)
  else
    let oldJobMap := jobMap oldJobs in
    let newJobMap := jobMap newJobs in
    let started := newJobMap ≫= startedStep cfg previousJobStates oldJobMap in
    let completed := oldJobMap ≫= completedStep cfg newJobMap in
    let last := foldl (failStep cfg) ([], previousJobStates) newJobs in
    (started ++ completed ++ last.1, last.2).

(** [refreshJobs()]: refresh the provider, then compare the list it held
    before with the one it holds now. *)
Definition refreshJobs (cfg : SlurmConfig) (svc : SlurmService)
    (st : SlurmJobsProvider * gmap string string)
    : SlurmJobsProvider * gmap string string * list Notification :=
  let oldJobs := jobs st.1 in
  let p := refresh svc st.1 in
  let '(shown, table) := checkJobStateChanges cfg st.2 oldJobs (jobs p) in
  (p, table, shown).

(** The service as the extension builds it: both queries run [squeue] and
    parse what it printed. *)
Definition commandService (RegExp_i : string → outcome (string → bool))
    (me : string) (cfg : SlurmConfig) (result : CommandResult) : SlurmService :=
  {| svc_getMyJobs := λ f, getMyJobs RegExp_i me cfg (Some f) result;
     svc_getJobs := λ f, getJobs RegExp_i cfg (Some f) result |}.

(** ** More of the service ([slurmService.ts]) *)

(** [s.replace(/c/g, r)] for a single character [c] and a replacement [r]
    that holds no [$]: every [c] becomes [r]. *)
Fixpoint replace_all_char (c : ascii) (r s : string) : string :=
  match s with
  | EmptyString => EmptyString
  | String a s' =>
      if Js.eqc c a then r +:+ replace_all_char c r s'
      else String a (replace_all_char c r s')
  end.

(** The argument list of [buildCommand] once a host is configured. *)
Definition sshArgs (cfg : SlurmConfig) (command : string) : list string :=
  ["ssh"]
  ++ (if Js.truthy (sshKeyPath cfg) then ["-i"; sshKeyPath cfg] else [])
  ++ ["-o"; "BatchMode=yes"; "-o"; "StrictHostKeyChecking=accept-new";
      "-o"; "ConnectTimeout=10"]
  ++ [if Js.truthy (sshUser cfg) then sshUser cfg +:+ "@" +:+ sshHost cfg else sshHost cfg]
  ++ ["'" +:+ replace_all_char "'" "'\''" command +:+ "'"].

(** [buildCommand(command)] *)
Definition buildCommand (cfg : SlurmConfig) (command : string) : string :=
  if negb (Js.truthy (sshHost cfg)) then command
  else Js.join " " (sshArgs cfg command).

(** [cancelJobs], [holdJob] and [releaseJob], from the result of their
    command. *)
Definition cancelJobs (result : CommandResult) : outcome bool :=
  if negb (success result) && Js.truthy (stderr result)
  then Throws ("Failed to cancel jobs: " +:+ stderr result)
  else Returns true.

Definition holdJob (result : CommandResult) : outcome bool :=
  if negb (success result) && Js.truthy (stderr result)
  then Throws ("Failed to hold job: " +:+ stderr result)
  else Returns true.

Definition releaseJob (result : CommandResult) : outcome bool :=
  if negb (success result) && Js.truthy (stderr result)
  then Throws ("Failed to release job: " +:+ stderr result)
  else Returns true.

(** [SubmitOptions]; the three counts are integral numbers. *)
Record SubmitOptions : Type := {
  scriptPath : string;
  o_jobName : option string;
  o_partition : option string;
  o_nodes : option Z;
  o_ntasks : option Z;
  o_cpusPerTask : option Z;
  o_memory : option string;
  o_time : option string;
  o_output : option string;
  o_error : option string;
  o_array : option string;
  o_dependency : option string;
  o_account : option string;
  o_qos : option string;
  o_gres : option string;
  o_mail : option string;
  o_mailType : option (list string);
  o_workdir : option string;
  o_additionalArgs : option (list string);
}.

(** [SUBMIT_OPTIONS], in source order, each flag with [String(val)] of the
    option it stands for. *)
Definition SUBMIT_OPTIONS (o : SubmitOptions) : list (string * option string) :=
  [ ("-J", o_jobName o); ("-p", o_partition o); ("-N", pretty <$> o_nodes o);
    ("-n", pretty <$> o_ntasks o); ("-c", pretty <$> o_cpusPerTask o);
    ("--mem", o_memory o); ("-t", o_time o); ("-o", o_output o); ("-e", o_error o);
    ("-a", o_array o); ("-d", o_dependency o); ("-A", o_account o);
    ("--qos", o_qos o); ("--gres", o_gres o); ("-D", o_workdir o);
    ("--mail-user", o_mail o) ].

(** The argument list [submitJob] joins into its command. *)
Definition submitArgs (o : SubmitOptions) : list string :=
  ["sbatch"]
  ++ (SUBMIT_OPTIONS o ≫= λ fv, match fv.2 with Some v => [fv.1; v] | None => [] end)
  ++ match o_mailType o with
     | Some (t :: ts) => ["--mail-type"; Js.join "," (t :: ts)]
     | _ => []
     end
  ++ default [] (o_additionalArgs o)
  ++ [scriptPath o].

(** What is left of [s] after the prefix [p], if [s] starts with it. *)
Fixpoint after_prefix (p s : string) : option string :=
  match p, s with
  | EmptyString, _ => Some s
  | String a p', String b s' => if Js.eqc a b then after_prefix p' s' else None
  | String _ _, EmptyString => None
  end.

(** The group of [/Submitted batch job (\d+)/] matched at the start of
    [s]. *)
Definition submitted_at (s : string) : option string :=
  match after_prefix "Submitted batch job " s with
  | Some r =>
      match Dump.take_while Js.is_digit r with
      | EmptyString => None
      | v => Some v
      end
  | None => None
  end.

(** What [submitJob] and [resubmitJob] make of the result of [sbatch]. *)
Definition submittedId (what : string) (result : CommandResult) : outcome string :=
  if negb (success result) then Throws ("Failed to " +:+ what +:+ " job: " +:+ stderr result)
  else match Dump.first_match submitted_at (stdout result) with
       | Some id => Returns id
       | None => Throws ("Unexpected sbatch output: " +:+ stdout result)
       end.

(** [submitJob(options)]: the command it runs, and its answer from the
    result. *)
Definition submitCommand (o : SubmitOptions) : string := Js.join " " (submitArgs o).

Definition submitJob (result : CommandResult) : outcome string :=
  submittedId "submit" result.




(** ** More of the tree provider ([slurmProvider.ts]) *)

Definition isActive (j : SlurmJob) : bool :=
  bool_decide (state j = "RUNNING") || bool_decide (state j = "PENDING").

(** [JobTreeItem.getContextValue()] *)
Definition getContextValue (i : JobTreeItem) : string :=
  if isArrayParent i then
    if existsb isActive (arrayTasks i) then "array-job-cancellable" else "array-job"
  else
    if isActive (job i) then "job-" +:+ toLowerCase (state (job i)) else "job".

(** ** More of the extension ([extension.ts]) *)

(** [/^\d+(_\d+)?$/.test(v)] *)
Definition isJobIdFormat (v : string) : bool :=
  match Dump.take_while Js.is_digit v, Dump.drop_while Js.is_digit v with
  | String _ _, EmptyString => true
  | String _ _, String "_" r =>
      match Dump.take_while Js.is_digit r, Dump.drop_while Js.is_digit r with
      | String _ _, EmptyString => true
      | _, _ => false
      end
  | _, _ => false
  end.

(** The [validateInput] callback of [promptForJobId]; [None] is [null],
    the input is accepted. *)
Definition validateInput (v : string) : option string :=
  if negb (Js.truthy v) then Some "Job ID required"
  else if negb (isJobIdFormat v) then Some "Invalid format"
  else None.

(** [jobId.split('_')[0]], the id handed to [resubmitJob] by the
    [slurm.resubmitJob] command. *)
Definition baseJobId (jobId : string) : string :=
  default "" (Js.split "_" jobId !! 0%nat).





(** The text [updateStatusBar()] puts on the status bar item. *)
Definition statusText (js : list SlurmJob) : string :=
  let running := List.filter (λ j, bool_decide (state j = "RUNNING")) js in
  let pending := length (List.filter (λ j, bool_decide (state j = "PENDING")) js) in
  match js with
  | [] => "$(server-process) SLURM: No jobs"
  | _ => "$(server-process) SLURM: " +:+ pretty (length running) +:+ "R / "
         +:+ pretty pending +:+ "P"
  end.

(** ** The user name ([slurmService.ts]) *)

(** [getUser()], with the field [remoteUser] passed in and out ([None] is
    [null]). [username] is [os.userInfo().username] and [whoami] the
    result the command [whoami] has if it is run; the third component
    tells whether it is run. *)
Definition getUser (cfg : SlurmConfig) (username : string) (whoami : CommandResult)
    (remoteUser : option string) : string * option string * bool :=
  if Js.truthy (sshUser cfg) then (sshUser cfg, remoteUser, false)
  else if Js.truthy (sshHost cfg) then
    match remoteUser with
    | Some (String c s) => (String c s, remoteUser, false)
    | _ =>
        let user := if success whoami then stdout whoami else username in
        (user, Some user, true)
    end
  else (username, remoteUser, false).

(** ** Specification-side notions *)

(** Every character of [s] satisfies [p]. *)
Fixpoint all_chars (p : ascii → bool) (s : string) : bool :=
  match s with
  | EmptyString => true
  | String c s' => p c && all_chars p s'
  end.


(** A hundred and one copies of one well-formed line. *)
Definition long_listing : list string :=
  replicate 101 "1|job|p|R|0:00|1:00|1|n|N/A|N/A".

(** A regular-expression engine that accepts no pattern; the queries made
    without a name filter never consult it. *)
Definition noRegExp : string → outcome (string → bool) :=
  λ _, Throws "SyntaxError".

(** The jobs of a list that are in state [s], in order. *)
Definition inState (s : string) (js : list SlurmJob) : list SlurmJob :=
  List.filter (λ j, bool_decide (state j = s)) js.

(** The map built by [getJobCounts], as a function of the job list. *)
Definition counts (js : list SlurmJob) : JsMap.t string nat :=
  foldl (λ m j, JsMap.set (state j) (default 0 (JsMap.get (state j) m) + 1) m)
        JsMap.empty js.

(** The jobs whose state is none of the seven of [order]. *)
Definition inOtherStates (js : list SlurmJob) : list SlurmJob :=
  List.filter (λ j, negb (bool_decide (state j ∈ order))) js.

(** The tasks of the array [id], in order. *)
Definition cluster (id : string) (js : list SlurmJob) : list SlurmJob :=
  List.filter (λ j, bool_decide (arrayIdOf j = Some id)) js.

(** The jobs that belong to no array. *)
Definition standalone (js : list SlurmJob) : list SlurmJob :=
  List.filter (λ j, bool_decide (arrayIdOf j = None)) js.

(** The distinct members of a list, in the order in which they first
    occur. *)
Definition firsts {A} `{EqDecision A} (l : list A) : list A :=
  foldl (λ acc x, if bool_decide (x ∈ acc) then acc else acc ++ [x]) [] l.

Definition arrayIds (js : list SlurmJob) : list string :=
  firsts (omap arrayIdOf js).

(** The item that stands for a cluster: the task itself when it is alone,
    a collapsed parent over the tasks otherwise. *)
Definition clusterItem (id : string) (tasks : list SlurmJob) : list JobTreeItem :=
  match tasks with
  | [] => []
  | [t] => [jobItem t]
  | t :: _ => [arrayParentItem id t tasks]
  end.

(** The jobs a list of job items puts on display, top to bottom, with
    every array parent opened. *)
Definition displayedJobs (items : list JobTreeItem) : list SlurmJob :=
  items ≫= λ i, if isArrayParent i then arrayTasks i else [job i].

(** Clusters first, by first occurrence of their array id, then the
    jobs outside any array. *)
Definition clustered (js : list SlurmJob) : list SlurmJob :=
  (arrayIds js ≫= λ id, cluster id js) ++ standalone js.

(** A job record for examples: only id, name and state vary. *)
Definition mockJob (id nm st : string) : SlurmJob :=
  {| jobId := id; name := nm; partition := "gpu"; state := st; stateRaw := st;
     timeUsed := "0:10"; timeLimit := "1:00:00"; nodes := Js.Num 1; nodelist := "node01";
     startTime := "N/A"; endTime := "N/A";
     arrayJobId := None; arrayTaskId := None; jobExitCode := None |}.

(** A provider that has loaded [js] without error. *)
Definition loaded (byState arrays : bool) (js : list SlurmJob) : SlurmJobsProvider :=
  {| jobs := js; groupByState := byState; groupArrayJobs := arrays; lastError := None;
     isLoading := false; filter_ := emptyFilter; showOnlyMyJobs := true |}.


(** The entry a snapshot holds for a job id: the last job listed under
    it, if any. *)
Definition entryOf (id : string) (js : list SlurmJob) : option SlurmJob :=
  last (List.filter (λ j, bool_decide (jobId j = id)) js).

Definition isStartedOf (id : string) (n : Notification) : bool :=
  match n with Started id' _ => bool_decide (id' = id) | _ => false end.

Definition isCompletedOf (id : string) (n : Notification) : bool :=
  match n with Completed id' _ => bool_decide (id' = id) | _ => false end.

(** Successive passes of [checkJobStateChanges], each comparing the list
    of the pass before with the next one and handing on the table, the
    way successive calls of [refreshJobs] do: all notifications shown. *)
Fixpoint passes (cfg : SlurmConfig) (table : gmap string string)
    (oldJobs : list SlurmJob) (snapshots : list (list SlurmJob)) : list Notification :=
  match snapshots with
  | [] => []
  | newJobs :: rest =>
      (checkJobStateChanges cfg table oldJobs newJobs).1
      ++ passes cfg (checkJobStateChanges cfg table oldJobs newJobs).2 newJobs rest
  end.

(** The default configuration with [notifyOnStart] switched on. *)
Definition notifyAll : SlurmConfig := {|
  refreshInterval := 30; autoRefresh := true;
  sshHost := ""; sshUser := ""; sshKeyPath := "";
  squeueFormat := "%i|%j|%P|%T|%M|%l|%D|%R|%S|%e";
  showAllUsers := false; partitionFilter := []; maxJobsDisplayed := 100;
  enableNotifications := true; notifyOnComplete := true;
  notifyOnFail := true; notifyOnStart := true;
|}.

(** Mapping over the value an awaited call returns. *)
Definition outcome_map {A B} (f : A → B) (o : outcome (list A)) : outcome (list B) :=
  match o with
  | Returns l => Returns (f <$> l)
  | Throws message => Throws message
  end.
Infix "<$$>" := outcome_map (at level 61, left associativity).

(** The dump used by the test of the detail parser. *)
Definition scontrolOutput : string :=
"JobId=12345 JobName=test_job
   UserId=testuser(1000) GroupId=testgroup(1000)
   Partition=gpu Account=default
   JobState=RUNNING Reason=None
   StartTime=2024-01-15T10:00:00 EndTime=2024-01-15T14:00:00
   RunTime=01:30:00 TimeLimit=04:00:00
   NumNodes=1 NumCPUs=4 NumTasks=1
   CPUs/Task=4 MinMemoryNode=16G
   NodeList=node01 BatchHost=node01
   StdOut=/home/testuser/job.out StdErr=/home/testuser/job.err
   WorkDir=/home/testuser/project
   Command=/home/testuser/scripts/run.sh".

(** ** Further specification-side notions *)

(** How the shell reads a word made of single-quoted stretches and
    backslash-escaped characters: inside quotes everything up to the next
    quote is literal; outside, only an opening quote or a backslash with
    the character it protects may occur. [None] when the text is not one
    such word. *)
Fixpoint sh_word (quoted : bool) (s : string) : option string :=
  match s with
  | EmptyString => if quoted then None else Some EmptyString
  | String c s' =>
      if quoted then
        if Js.eqc c "'" then sh_word false s' else String c <$> sh_word true s'
      else if Js.eqc c "'" then sh_word true s'
      else if Js.eqc c "\" then
        match s' with
        | String d s'' => String d <$> sh_word false s''
        | EmptyString => None
        end
      else None
  end.

(** How a rejected command looks when it left no trace: no text on
    [stderr] and an empty message. *)
Definition silent (e : ExecError) : Prop :=
  err_message e = "" ∧
  match err_stderr e with Some s => Js.trim s = "" | None => True end.

(** A non-empty run of decimal digits. *)
Definition digits_only (s : string) : Prop :=
  s ≠ "" ∧ all_chars Js.is_digit s = true.

(** The jobs an item stands for: its tasks if it is an array parent, its
    job otherwise. *)
Definition itemJobs (i : JobTreeItem) : list SlurmJob :=
  if isArrayParent i then arrayTasks i else [job i].

(** The context values that [getContextValue] gives to an item with a
    running or pending job. *)
Definition cancellable (contextValue : string) : bool :=
  bool_decide (contextValue ∈ ["array-job-cancellable"; "job-running"; "job-pending"]).


Definition isFailedOf (id : string) (n : Notification) : bool :=
  match n with Failed id' _ _ => bool_decide (id' = id) | _ => false end.

(** The warning the last loop of [checkJobStateChanges] shows for a job
    whose id the table has under [prevState]. *)
Definition warning (cfg : SlurmConfig) (prevState : option string) (j : SlurmJob)
    : list Notification :=
  if notifyOnFail cfg && isFailure (state j) then
    match prevState with
    | Some (String c s) =>
        if bool_decide (String c s ≠ state j)
        then [Failed (jobId j) (name j) (state j)] else []
    | _ => []
    end
  else [].

(** A pattern engine that knows literal, case-sensitive patterns only. *)
Definition literalRegExp (source : string) : outcome (string → bool) :=
  Returns (Js.includes source).

(** A filter on the job name alone. *)
Definition byName (pattern : string) : JobFilter :=
  {| f_user := None; f_partition := None; f_state := None; f_name := Some pattern;
     f_jobIds := None; f_startTime := None; f_endTime := None |}.

(** The default configuration with another [maxJobsDisplayed]. *)
Definition withLimit (n : Z) : SlurmConfig := {|
  refreshInterval := refreshInterval defaultConfig;
  autoRefresh := autoRefresh defaultConfig;
  sshHost := sshHost defaultConfig;
  sshUser := sshUser defaultConfig;
  sshKeyPath := sshKeyPath defaultConfig;
  squeueFormat := squeueFormat defaultConfig;
  showAllUsers := showAllUsers defaultConfig;
  partitionFilter := partitionFilter defaultConfig;
  maxJobsDisplayed := n;
  enableNotifications := enableNotifications defaultConfig;
  notifyOnComplete := notifyOnComplete defaultConfig;
  notifyOnFail := notifyOnFail defaultConfig;
  notifyOnStart := notifyOnStart defaultConfig;
|}.

(** A field as the queue listing delivers it: trimmed, and free of the
    two separators of the listing. *)
Definition clean (s : string) : Prop :=
  Js.trim s = s ∧ Js.includes_char "|" s = false ∧ Js.includes_char LF s = false.

(** The columns of a job that are copied from the listing. *)
Definition textFields (j : SlurmJob) : list string :=
  [jobId j; name j; partition j; stateRaw j; timeUsed j; timeLimit j;
   nodelist j; startTime j; endTime j].


(** *** Properties of the normaliser *)

Section normaliser.

Lemma split_by_nonempty p s : Js.split_by p s ≠ [].
Proof. destruct s as [|c s]; simpl; [done|]. destruct (p c); [done|]. by destruct (Js.split_by p s). Qed.

(** The first piece of [code.split(/[^A-Z]/)] is the leading run. *)
Lemma split_upper_head code :
  Js.split_by (λ c, negb (Js.is_upper c)) code !! 0%nat = Some (leading_run code).
Proof.
  induction code as [|c s IH]; simpl; [done|].
  destruct (Js.is_upper c); simpl; [|done].
  destruct (Js.split_by _ s) as [|h t]; simpl in *; congruence.
Qed.

Lemma STATE_TABLE_keys_NoDup : NoDup STATE_TABLE.*1.
Proof. apply (bool_decide_unpack _). by vm_compute. Qed.

Lemma STATE_TABLE_values_truthy k v :
  (k, v) ∈ STATE_TABLE → Js.truthy v = true.
Proof.
  assert (Forall (λ kv, Js.truthy kv.2 = true) STATE_TABLE) as Hall.
  { apply (bool_decide_unpack _). by vm_compute. }
  intros Hin. by apply (proj1 (Forall_forall _ _) Hall (k, v)).
Qed.

Lemma or_else_truthy v d : Js.truthy v = true → Js.or_else (Some v) d = v.
Proof. by destruct v. Qed.

Lemma parseJobState_unfold code :
  parseJobState code = Js.or_else (STATE_MAP !! leading_run code) code.
Proof. unfold parseJobState. by rewrite split_upper_head. Qed.

End normaliser.

(** *** Splitting and joining lines *)

Section lines.

Lemma includes_char_cons c a s :
  Js.includes_char c (String a s) = Js.eqc c a || Js.includes_char c s.
Proof. unfold Js.includes_char. simpl. by rewrite andb_true_r. Qed.

Lemma includes_char_false c s :
  Js.includes_char c s = false ↔ all_chars (λ a, negb (Js.eqc c a)) s = true.
Proof.
  induction s as [|a s IH]; [done|].
  rewrite includes_char_cons. simpl.
  rewrite orb_false_iff, andb_true_iff, negb_true_iff. by rewrite IH.
Qed.

Lemma split_by_single p s :
  all_chars (λ a, negb (p a)) s = true → Js.split_by p s = [s].
Proof.
  induction s as [|a s IH]; simpl; [done|].
  intros [Ha Hs]%andb_true_iff. apply negb_true_iff in Ha. rewrite Ha.
  by rewrite (IH Hs).
Qed.

Lemma split_by_app p s c t :
  all_chars (λ a, negb (p a)) s = true → p c = true →
  Js.split_by p (s +:+ String c t) = s :: Js.split_by p t.
Proof.
  intros Hs Hc. induction s as [|a s IH]; simpl in *.
  - by rewrite Hc.
  - apply andb_true_iff in Hs as [Ha Hs]. apply negb_true_iff in Ha.
    rewrite Ha. by rewrite (IH Hs).
Qed.

(** Joining lines with line feeds and splitting again gives the lines
    back, as long as no line contains a line feed. *)
Lemma split_join ls :
  ls ≠ [] → Forall (λ l, Js.includes_char LF l = false) ls →
  Js.split LF (Js.join nl ls) = ls.
Proof.
  intros Hne Hall. induction Hall as [|l ls Hl Hall IH]; [done|].
  apply includes_char_false in Hl. unfold Js.split in *.
  destruct ls as [|l' ls].
  - simpl. by apply split_by_single.
  - change (Js.join nl (l :: l' :: ls)) with (l +:+ String LF (Js.join nl (l' :: ls))).
    rewrite split_by_app; [|done|done]. by rewrite IH.
Qed.

(** Conversely every text is the join of its lines, none of which
    contains a line feed. *)
Lemma split_cons_inv p c s :
  Js.split_by p (String c s) =
    if p c then EmptyString :: Js.split_by p s
    else match Js.split_by p s with
         | [] => [String c EmptyString]
         | h :: t => String c h :: t
         end.
Proof. done. Qed.

Lemma join_split t : Js.join nl (Js.split LF t) = t.
Proof.
  unfold Js.split. induction t as [|c t IH]; [done|].
  rewrite split_cons_inv. destruct (Js.eqc LF c) eqn:Hc.
  - apply Ascii.eqb_eq in Hc as <-.
    destruct (Js.split_by (Js.eqc LF) t) as [|h r] eqn:E; [by apply split_by_nonempty in E|].
    change (Js.join nl (EmptyString :: h :: r)) with (String LF (Js.join nl (h :: r))).
    by rewrite IH.
  - destruct (Js.split_by (Js.eqc LF) t) as [|h [|h' r]] eqn:E.
    + by apply split_by_nonempty in E.
    + simpl in *. by rewrite IH.
    + change (Js.join nl (String c h :: h' :: r))
        with (String c (Js.join nl (h :: h' :: r))).
      by rewrite IH.
Qed.

Lemma split_lines_no_LF t : Forall (λ l, Js.includes_char LF l = false) (Js.split LF t).
Proof.
  unfold Js.split. induction t as [|c t IH]; [by repeat constructor|].
  rewrite split_cons_inv. destruct (Js.eqc LF c) eqn:Hc.
  - by constructor.
  - destruct (Js.split_by (Js.eqc LF) t) as [|h r] eqn:E; [by apply split_by_nonempty in E|].
    apply Forall_cons in IH as [Hh Hr]. constructor; [|done].
    by rewrite includes_char_cons, Hc.
Qed.

Lemma join_empty ls :
  Js.truthy (Js.join nl ls) = false → List.filter well_formed ls = [].
Proof.
  destruct ls as [|l [|l' ls]]; simpl; [done| |].
  - by destruct l.
  - destruct l; simpl; done.
Qed.

End lines.

(** *** The queue listing, line by line *)

Section listing.

Variable RegExp_i : string → outcome (string → bool).

(** Without a name filter the parse is one job per well-formed line, cut
    off at [maxJobsDisplayed]. *)
Lemma getJobs_lines cfg ls r :
  success r = true → stdout r = Js.join nl ls →
  Forall (λ l, Js.includes_char LF l = false) ls →
  getJobs RegExp_i cfg None r =
    Returns (Js.slice0 (maxJobsDisplayed cfg) (parseSqueueLine <$> List.filter well_formed ls)).
Proof.
  intros Hok Hout Hlf. unfold getJobs. rewrite Hok, Hout. simpl.
  destruct (Js.truthy (Js.join nl ls)) eqn:Hne; simpl.
  - rewrite split_join; [done| |done]. by intros ->.
  - rewrite (join_empty _ Hne). unfold Js.slice0. simpl.
    by destruct (_ <? 0)%Z; rewrite take_nil.
Qed.

Lemma slice0_nonneg {A} n (l : list A) :
  (0 ≤ n)%Z → Js.slice0 n l = take (Z.to_nat n) l.
Proof. intros Hn. unfold Js.slice0. by rewrite (proj2 (Z.ltb_ge n 0) Hn). Qed.


End listing.


(** *** Single lines *)




(** *** Substrings *)

Lemma eqc_refl c : Js.eqc c c = true.
Proof. apply Ascii.eqb_refl. Qed.

Lemma starts_with_app p s : Js.starts_with p (p +:+ s) = true.
Proof. induction p as [|c p IH]; simpl; [done|]. by rewrite eqc_refl, IH. Qed.

(** A string includes whatever occurs between a prefix and a suffix of it. *)
Lemma includes_middle p pre post : Js.includes p (pre +:+ p +:+ post) = true.
Proof.
  induction pre as [|c pre IH].
  - destruct p; simpl; [by destruct post|].
    by rewrite eqc_refl, (starts_with_app p post).
  - change (String c pre +:+ p +:+ post) with (String c (pre +:+ p +:+ post)).
    simpl. rewrite IH. apply orb_true_r.
Qed.

(** *** The provider's call to the service *)

Lemma fetch_refresh_begin svc p : fetch svc (refresh_begin p) = fetch svc p.
Proof. done. Qed.

(** *** [Map] *)

Section JsMap_facts.
Context {K V : Type} `{EqDecision K}.
Implicit Types (m : JsMap.t K V) (k : K) (v : V).

Lemma get_set_eq m k v : JsMap.get k (JsMap.set k v m) = Some v.
Proof.
  induction m as [|[k' v'] m IH]; simpl.
  - by rewrite decide_True.
  - destruct (decide (k' = k)); simpl; [by rewrite decide_True|].
    by rewrite decide_False.
Qed.

Lemma get_set_ne m k k' v : k ≠ k' → JsMap.get k' (JsMap.set k v m) = JsMap.get k' m.
Proof.
  intros Hne. induction m as [|[k0 v0] m IH]; simpl.
  - by rewrite decide_False.
  - destruct (decide (k0 = k)) as [-> |]; simpl.
    + by rewrite !decide_False.
    + destruct (decide (k0 = k')); done.
Qed.

Lemma get_None_keys m k : JsMap.get k m = None ↔ k ∉ m.*1.
Proof.
  induction m as [|[k0 v0] m IH]; simpl.
  - split; [intros _; apply not_elem_of_nil|done].
  - rewrite not_elem_of_cons. destruct (decide (k0 = k)) as [-> |Hne].
    + split; [done|]. by intros [? _].
    + rewrite IH. split; [done|]. by intros [_ ?].
Qed.

Lemma has_keys m k : JsMap.has k m = bool_decide (k ∈ m.*1).
Proof.
  unfold JsMap.has. destruct (JsMap.get k m) eqn:E.
  - symmetry. apply bool_decide_eq_true. destruct (decide (k ∈ m.*1)); [done|].
    apply get_None_keys in n. congruence.
  - symmetry. apply bool_decide_eq_false. by apply get_None_keys.
Qed.

Lemma set_new m k v : k ∉ m.*1 → JsMap.set k v m = m ++ [(k, v)].
Proof.
  induction m as [|[k0 v0] m IH]; simpl; [done|].
  rewrite not_elem_of_cons. intros [Hne Hnot].
  rewrite decide_False by done. by rewrite IH.
Qed.

Lemma set_keys_known m k v : k ∈ m.*1 → (JsMap.set k v m).*1 = m.*1.
Proof.
  induction m as [|[k0 v0] m IH]; simpl.
  - by intros ?%elem_of_nil.
  - destruct (decide (k0 = k)) as [-> |Hne]; simpl; [done|].
    intros [?|Hin]%elem_of_cons; [congruence|]. f_equal. by apply IH.
Qed.

(** Adding one to the count of [k] adds one to the sum over the keys
    selected by [sel] exactly when [k] is selected. *)
Lemma sum_set_incr (sel : K → bool) (m : JsMap.t K nat) k :
  foldr (λ kc s, kc.2 + s) 0
        (List.filter (λ kc, sel kc.1) (JsMap.set k (default 0 (JsMap.get k m) + 1) m))
  = foldr (λ kc s, kc.2 + s) 0 (List.filter (λ kc, sel kc.1) m)
    + (if sel k then 1 else 0).
Proof.
  induction m as [|[k0 c0] m IH]; simpl.
  - destruct (sel k); simpl; lia.
  - destruct (decide (k0 = k)) as [-> |Hne]; simpl.
    + destruct (sel k); simpl; lia.
    + destruct (sel k0); simpl; rewrite IH; lia.
Qed.

End JsMap_facts.

Lemma foldl_plus_foldr {A} (f : A → nat) (l : list A) (a : nat) :
  foldl (λ s x, s + f x) a l = a + foldr (λ x s, f x + s) 0 l.
Proof.
  revert a. induction l as [|x l IH]; intros a; simpl; [lia|]. rewrite IH. lia.
Qed.

(** *** Counting by state *)

Lemma getJobCounts_counts p : getJobCounts p = counts (jobs p).
Proof. done. Qed.

Lemma counts_snoc js j :
  counts (js ++ [j]) =
    JsMap.set (state j) (default 0 (JsMap.get (state j) (counts js)) + 1) (counts js).
Proof. unfold counts. by rewrite foldl_snoc. Qed.

Lemma inState_snoc s js j :
  inState s (js ++ [j]) = inState s js ++ (if bool_decide (state j = s) then [j] else []).
Proof. unfold inState. rewrite List.filter_app. simpl. by destruct (bool_decide _). Qed.

(** The map holds, for every state that occurs, the number of jobs in that
    state, and nothing for the others. *)
Lemma counts_get js s :
  JsMap.get s (counts js) =
    match length (inState s js) with 0 => None | n => Some n end.
Proof.
  induction js as [|j js IH] using rev_ind; [done|].
  rewrite counts_snoc, inState_snoc, length_app.
  destruct (decide (state j = s)) as [-> |Hne].
  - rewrite get_set_eq, IH, bool_decide_eq_true_2 by done. simpl.
    rewrite (Nat.add_1_r (length _)). destruct (length _); simpl; f_equal; lia.
  - rewrite get_set_ne, IH, bool_decide_eq_false_2 by done. simpl.
    by rewrite Nat.add_0_r.
Qed.

Lemma counts_sum (sel : string → bool) js :
  foldl (λ sum sc, sum + sc.2) 0 (List.filter (λ sc, sel sc.1) (counts js))
  = length (List.filter (λ j, sel (state j)) js).
Proof.
  rewrite foldl_plus_foldr. simpl.
  induction js as [|j js IH] using rev_ind; [done|].
  rewrite counts_snoc, sum_set_incr, IH, List.filter_app, length_app. simpl.
  by destruct (sel (state j)).
Qed.

Lemma map_filter_ext {A B} (f g : A → B) (p q : A → bool) (l : list A) :
  (∀ x, p x = q x) → (∀ x, p x = true → f x = g x) →
  f <$> List.filter p l = g <$> List.filter q l.
Proof.
  intros Hpq Hfg. induction l as [|x l IH]; simpl; [done|].
  rewrite <- Hpq. destruct (p x) eqn:E; simpl; [|done].
  f_equal; [by apply Hfg|done].
Qed.

(** *** First occurrences *)

Section firsts.
Context {A : Type} `{EqDecision A}.
Implicit Types (l : list A) (x : A).

Lemma firsts_snoc l x :
  firsts (l ++ [x]) = if bool_decide (x ∈ firsts l) then firsts l else firsts l ++ [x].
Proof. unfold firsts. by rewrite foldl_snoc. Qed.

Lemma elem_of_firsts l x : x ∈ firsts l ↔ x ∈ l.
Proof.
  induction l as [|y l IH] using rev_ind; [done|].
  rewrite firsts_snoc, elem_of_app, list_elem_of_singleton.
  case_bool_decide as Hy.
  - rewrite IH. split; [by left|]. intros [?| ->]; [done|]. by apply IH.
  - by rewrite elem_of_app, list_elem_of_singleton, IH.
Qed.

Lemma NoDup_firsts l : NoDup (firsts l).
Proof.
  induction l as [|y l IH] using rev_ind; [constructor|].
  rewrite firsts_snoc. case_bool_decide as Hy; [done|].
  apply NoDup_app. split_and!; [done| |apply NoDup_singleton].
  intros x Hx ->%list_elem_of_singleton. done.
Qed.

End firsts.

(** *** Writing into a [Map] laid out by a list of keys *)

Section keyed.
Context {V : Type}.
Implicit Types (f g : string → V) (L : list string).

Lemma keyed_keys f L : ((λ k, (k, f k)) <$> L).*1 = L.
Proof. induction L as [|k L IH]; simpl; [done|]. by f_equal. Qed.

Lemma keyed_get f L k : k ∈ L → JsMap.get k ((λ k, (k, f k)) <$> L) = Some (f k).
Proof.
  induction L as [|k0 L IH]; simpl; [by intros ?%elem_of_nil|].
  intros Hin. destruct (decide (k0 = k)) as [-> |Hne]; [done|].
  apply elem_of_cons in Hin as [?|Hin]; [congruence|]. by apply IH.
Qed.

(** Overwriting the value of a key that is present changes that entry
    only. *)
Lemma keyed_set f g L k v :
  NoDup L → k ∈ L → g k = v → (∀ k', k' ≠ k → g k' = f k') →
  JsMap.set k v ((λ k, (k, f k)) <$> L) = (λ k, (k, g k)) <$> L.
Proof.
  intros Hnd Hin Hgk Hg. induction Hnd as [|k0 L Hk0 Hnd IH]; simpl.
  - by apply elem_of_nil in Hin.
  - destruct (decide (k0 = k)) as [-> |Hne].
    + rewrite Hgk. f_equal. apply list_fmap_ext. intros i k' Hk'.
      rewrite Hg; [done|]. intros ->. apply Hk0. by eapply list_elem_of_lookup_2.
    + rewrite Hg by done. f_equal.
      apply elem_of_cons in Hin as [?|Hin]; [congruence|]. by apply IH.
Qed.

(** Writing twice into a key that was absent leaves one new entry at the
    end. *)
Lemma set_set_new (m : JsMap.t string V) k v0 v :
  k ∉ m.*1 → JsMap.set k v (JsMap.set k v0 m) = m ++ [(k, v)].
Proof.
  intros Hk. rewrite (set_new m k v0 Hk).
  induction m as [|[k0 w] m IH]; simpl.
  - by rewrite decide_True.
  - apply not_elem_of_cons in Hk as [Hne Hk]. simpl in *.
    rewrite decide_False by done. by rewrite IH.
Qed.

End keyed.

(** *** The grouping loop of [getJobItems] *)

Lemma cluster_snoc id js j :
  cluster id (js ++ [j]) =
    cluster id js ++ (if bool_decide (arrayIdOf j = Some id) then [j] else []).
Proof. unfold cluster. rewrite List.filter_app. simpl. by destruct (bool_decide _). Qed.

Lemma standalone_snoc js j :
  standalone (js ++ [j]) =
    standalone js ++ (if bool_decide (arrayIdOf j = None) then [j] else []).
Proof. unfold standalone. rewrite List.filter_app. simpl. by destruct (bool_decide _). Qed.

Lemma elem_of_cluster id js j : j ∈ cluster id js ↔ j ∈ js ∧ arrayIdOf j = Some id.
Proof.
  unfold cluster. rewrite !list_elem_of_In, List.filter_In, bool_decide_eq_true. done.
Qed.


Lemma elem_of_arrayIds id js : id ∈ arrayIds js ↔ ∃ j, j ∈ js ∧ arrayIdOf j = Some id.
Proof. unfold arrayIds. rewrite elem_of_firsts, list_elem_of_omap. done. Qed.

Lemma cluster_nonempty id js : id ∈ arrayIds js ↔ cluster id js ≠ [].
Proof.
  rewrite elem_of_arrayIds. split.
  - intros (j & Hj & Hid) Hnil.
    assert (j ∈ cluster id js) as Hin by by apply elem_of_cluster.
    rewrite Hnil in Hin. by apply elem_of_nil in Hin.
  - destruct (cluster id js) as [|j c] eqn:E; [done|]. intros _.
    exists j. apply elem_of_cluster. rewrite E. apply elem_of_cons. by left.
Qed.

Lemma arrayIds_snoc js j :
  arrayIds (js ++ [j]) =
    match arrayIdOf j with
    | Some id => if bool_decide (id ∈ arrayIds js) then arrayIds js else arrayIds js ++ [id]
    | None => arrayIds js
    end.
Proof.
  unfold arrayIds. rewrite omap_app. simpl.
  destruct (arrayIdOf j); simpl; [apply firsts_snoc|by rewrite app_nil_r].
Qed.

(** After the loop, [groups] holds the clusters under their array ids, in
    the order in which the ids first occur, and [regular] the other jobs. *)
Lemma groupStep_loop js :
  foldl groupStep (JsMap.empty, []) js =
    ((λ id, (id, cluster id js)) <$> arrayIds js, standalone js).
Proof.
  induction js as [|j js IH] using rev_ind; [done|].
  rewrite foldl_snoc, IH, arrayIds_snoc, standalone_snoc. unfold groupStep.
  destruct (arrayIdOf j) as [id|] eqn:Hid; simpl.
  - rewrite app_nil_r, has_keys, keyed_keys. f_equal.
    case_bool_decide as Hin.
    + rewrite keyed_get by done. simpl.
      apply keyed_set; [apply NoDup_firsts|done| |].
      * by rewrite cluster_snoc, Hid, bool_decide_eq_true_2.
      * intros k' Hne. rewrite cluster_snoc, Hid, bool_decide_eq_false_2, app_nil_r; [done|].
        congruence.
    + rewrite get_set_eq. simpl.
      rewrite set_set_new by by rewrite keyed_keys.
      rewrite fmap_app. simpl. f_equal.
      * apply list_fmap_ext. intros i k' Hk'. f_equal.
        rewrite cluster_snoc, Hid, bool_decide_eq_false_2, app_nil_r; [done|].
        intros [= ->]. apply Hin. by eapply list_elem_of_lookup_2.
      * rewrite cluster_snoc, Hid, bool_decide_eq_true_2 by done.
        destruct (cluster id js) eqn:E; [done|].
        exfalso. apply Hin, cluster_nonempty. by rewrite E.
  - f_equal. apply list_fmap_ext. intros i k' Hk'. f_equal.
    by rewrite cluster_snoc, Hid, bool_decide_eq_false_2, app_nil_r.
Qed.

(** No entry of [groups] is without a task. *)
Lemma groups_nonempty js id tasks :
  (id, tasks) ∈ (foldl groupStep (JsMap.empty, []) js).1 → tasks ≠ [].
Proof.
  rewrite groupStep_loop. simpl. intros (k & [= -> ->] & Hk)%list_elem_of_fmap.
  by apply cluster_nonempty.
Qed.

(** [getJobItems] with array grouping: one item per cluster, then the
    jobs outside any array. *)
Lemma getJobItems_grouped p js :
  groupArrayJobs p = true →
  getJobItems p js =
    (arrayIds js ≫= λ id, clusterItem id (cluster id js)) ++ (jobItem <$> standalone js).
Proof.
  intros Hg. unfold getJobItems. rewrite Hg, groupStep_loop. simpl. f_equal.
  induction (arrayIds js) as [|id ids IH]; [done|].
  rewrite fmap_cons, !bind_cons. by rewrite IH.
Qed.

Lemma getJobItems_flat p js :
  groupArrayJobs p = false → getJobItems p js = jobItem <$> js.
Proof. intros Hg. unfold getJobItems. by rewrite Hg. Qed.

(** *** Items of clusters *)







(** *** What is on display *)

Lemma displayedJobs_app a b : displayedJobs (a ++ b) = displayedJobs a ++ displayedJobs b.
Proof. unfold displayedJobs. apply bind_app. Qed.

Lemma displayedJobs_leaves l : displayedJobs (jobItem <$> l) = l.
Proof.
  induction l as [|j l IH]; [done|].
  rewrite fmap_cons. change (displayedJobs (jobItem j :: (jobItem <$> l)))
    with (j :: displayedJobs (jobItem <$> l)). by rewrite IH.
Qed.

Lemma displayedJobs_clusterItem id c : displayedJobs (clusterItem id c) = c.
Proof.
  destruct c as [|t [|t2 rest]]; [done|done|].
  unfold displayedJobs. simpl. by rewrite app_nil_r.
Qed.

Lemma displayedJobs_clusters (f : string → list SlurmJob) L :
  displayedJobs (L ≫= λ id, clusterItem id (f id)) = L ≫= f.
Proof.
  induction L as [|k L IH]; [done|].
  by rewrite !bind_cons, displayedJobs_app, displayedJobs_clusterItem, IH.
Qed.

Lemma displayedJobs_getJobItems p js :
  displayedJobs (getJobItems p js) = if groupArrayJobs p then clustered js else js.
Proof.
  destruct (groupArrayJobs p) eqn:Hg.
  - rewrite getJobItems_grouped by done.
    by rewrite displayedJobs_app, displayedJobs_clusters, displayedJobs_leaves.
  - rewrite getJobItems_flat by done. apply displayedJobs_leaves.
Qed.

Lemma filter_sublist {A} (q : A → bool) (l : list A) : List.filter q l `sublist_of` l.
Proof.
  induction l as [|x l IH]; simpl; [done|].
  destruct (q x); [by apply sublist_skip|by apply sublist_cons].
Qed.

(** *** Snapshots as [Map]s *)

Lemma filter_none {B} (sel : B → bool) (l : list B) :
  (∀ b, b ∈ l → sel b = false) → List.filter sel l = [].
Proof.
  induction l as [|b l IH]; simpl; [done|]. intros Hall.
  rewrite (Hall b) by (apply elem_of_cons; by left).
  apply IH. intros b' Hb'. apply Hall, elem_of_cons. by right.
Qed.

Section entries.
Context {K V : Type} `{EqDecision K}.
Implicit Types (m : JsMap.t K V) (k : K) (v : V).

Lemma get_Some_elem m k v : JsMap.get k m = Some v → (k, v) ∈ m.
Proof.
  induction m as [|[k0 v0] m IH]; simpl; [done|].
  destruct (decide (k0 = k)) as [-> |Hne].
  - intros [= ->]. apply elem_of_cons. by left.
  - intros Hget. apply elem_of_cons. right. by apply IH.
Qed.

Lemma elem_get_Some m k v : NoDup m.*1 → (k, v) ∈ m → JsMap.get k m = Some v.
Proof.
  induction m as [|[k0 v0] m IH]; simpl; [by intros _ ?%elem_of_nil|].
  intros [Hk0 Hnd]%NoDup_cons [[= <- <-]|Hin]%elem_of_cons.
  - by rewrite decide_True.
  - destruct (decide (k0 = k)) as [-> |Hne]; [|by apply IH].
    exfalso. apply Hk0. apply list_elem_of_fmap. by exists (k, v).
Qed.

Lemma set_keys m k v :
  (JsMap.set k v m).*1 = if bool_decide (k ∈ m.*1) then m.*1 else m.*1 ++ [k].
Proof.
  case_bool_decide as Hk.
  - by apply set_keys_known.
  - rewrite set_new by done. by rewrite fmap_app.
Qed.

Lemma set_keys_NoDup m k v : NoDup m.*1 → NoDup (JsMap.set k v m).*1.
Proof.
  intros Hnd. rewrite set_keys. case_bool_decide as Hk; [done|].
  apply NoDup_app. split_and!; [done| |apply NoDup_singleton].
  by intros x Hx ->%list_elem_of_singleton.
Qed.

Lemma of_entries_snoc (l : list (K * V)) k v :
  JsMap.of_entries (l ++ [(k, v)]) = JsMap.set k v (JsMap.of_entries l).
Proof. unfold JsMap.of_entries. by rewrite foldl_snoc. Qed.

Lemma of_entries_NoDup (l : list (K * V)) : NoDup (JsMap.of_entries l).*1.
Proof.
  induction l as [|[k v] l IH] using rev_ind; [constructor|].
  rewrite of_entries_snoc. by apply set_keys_NoDup.
Qed.

(** Where the keys are pairwise distinct, what a selection by key keeps
    of the output of a loop over the entries is what it keeps of the
    output for that key. *)
Lemma filter_bind_keyed {B} (g : K * V → list B) (sel : B → bool) m k :
  NoDup m.*1 →
  (∀ k' v b, k' ≠ k → b ∈ g (k', v) → sel b = false) →
  List.filter sel (m ≫= g) =
    match JsMap.get k m with
    | Some v => List.filter sel (g (k, v))
    | None => []
    end.
Proof.
  intros Hnd Hsel. induction m as [|[k0 v0] m IH]; [done|].
  apply NoDup_cons in Hnd as [Hk0 Hnd]. simpl in Hk0.
  rewrite bind_cons, List.filter_app, (IH Hnd). simpl.
  destruct (decide (k0 = k)) as [-> |Hne].
  - apply get_None_keys in Hk0. rewrite Hk0. apply app_nil_r.
  - rewrite (filter_none sel (g (k0, v0))); [done|].
    intros b Hb. by apply (Hsel k0 v0 b Hne Hb).
Qed.

End entries.

Lemma jobMap_snoc js j : jobMap (js ++ [j]) = JsMap.set (jobId j) j (jobMap js).
Proof. unfold jobMap. rewrite fmap_app. apply (of_entries_snoc _ (jobId j) j). Qed.

Lemma jobMap_NoDup js : NoDup (jobMap js).*1.
Proof. apply of_entries_NoDup. Qed.

Lemma entryOf_snoc id js j :
  entryOf id (js ++ [j]) = if bool_decide (jobId j = id) then Some j else entryOf id js.
Proof.
  unfold entryOf. rewrite List.filter_app. simpl.
  destruct (bool_decide _); [apply last_snoc|by rewrite app_nil_r].
Qed.

(** The map of a snapshot answers with the last job listed under an id. *)
Lemma jobMap_get id js : JsMap.get id (jobMap js) = entryOf id js.
Proof.
  induction js as [|j js IH] using rev_ind; [done|].
  rewrite jobMap_snoc, entryOf_snoc. case_bool_decide as Hid.
  - subst id. apply get_set_eq.
  - by rewrite get_set_ne.
Qed.

Lemma entryOf_None id js : entryOf id js = None ↔ id ∉ jobId <$> js.
Proof.
  induction js as [|j js IH] using rev_ind.
  - split; [intros _; apply not_elem_of_nil|done].
  - rewrite entryOf_snoc, fmap_app, not_elem_of_app. simpl.
    rewrite list_elem_of_singleton. case_bool_decide as Hid.
    + split; [done|]. by intros [_ []].
    + rewrite IH. split; [|by intros [? _]]. intros ?. split; [done|congruence].
Qed.

Lemma jobMap_has id js : JsMap.has id (jobMap js) = bool_decide (id ∈ jobId <$> js).
Proof.
  unfold JsMap.has. rewrite jobMap_get. destruct (entryOf id js) eqn:E.
  - symmetry. apply bool_decide_eq_true. destruct (decide (id ∈ jobId <$> js)) as [|Hn]; [done|].
    apply entryOf_None in Hn. congruence.
  - symmetry. apply bool_decide_eq_false. by apply entryOf_None.
Qed.

(** *** The last loop: warnings and the table *)

Lemma failStep_loop_snoc cfg table js j :
  foldl (failStep cfg) ([], table) (js ++ [j]) =
    failStep cfg (foldl (failStep cfg) ([], table) js) j.
Proof. apply foldl_snoc. Qed.

Lemma failStep_shown cfg acc j n :
  n ∈ (failStep cfg acc j).1 → n ∈ acc.1 ∨ ∃ a b c, n = Failed a b c.
Proof.
  unfold failStep. simpl. intros [?|Hn]%elem_of_app; [by left|]. right.
  destruct (notifyOnFail cfg && isFailure (state j)); [|by apply elem_of_nil in Hn].
  destruct (acc.2 !! jobId j) as [[|c s]|]; try by apply elem_of_nil in Hn.
  case_bool_decide; [|by apply elem_of_nil in Hn].
  apply list_elem_of_singleton in Hn. eauto.
Qed.

(** The last loop shows nothing but failure warnings. *)
Lemma failStep_loop_shown cfg table js n :
  n ∈ (foldl (failStep cfg) ([], table) js).1 → ∃ a b c, n = Failed a b c.
Proof.
  induction js as [|j js IH] using rev_ind; simpl; [by intros ?%elem_of_nil|].
  rewrite failStep_loop_snoc. intros [?|?]%failStep_shown; [by apply IH|done].
Qed.

(** After the last loop the table holds, for every id listed, the state
    of its entry. *)
Lemma failStep_loop_table cfg table js id :
  (foldl (failStep cfg) ([], table) js).2 !! id =
    match entryOf id js with
    | Some j => Some (state j)
    | None => table !! id
    end.
Proof.
  induction js as [|j js IH] using rev_ind; [done|].
  rewrite failStep_loop_snoc, entryOf_snoc. unfold failStep at 1. simpl.
  case_bool_decide as Hid.
  - subst id. apply lookup_insert_eq.
  - by rewrite lookup_insert_ne.
Qed.

Lemma checkJobStateChanges_enabled cfg table oldJobs newJobs :
  enableNotifications cfg = true →
  checkJobStateChanges cfg table oldJobs newJobs =
    ((jobMap newJobs ≫= startedStep cfg table (jobMap oldJobs))
     ++ (jobMap oldJobs ≫= completedStep cfg (jobMap newJobs))
     ++ (foldl (failStep cfg) ([], table) newJobs).1,
     (foldl (failStep cfg) ([], table) newJobs).2).
Proof. intros He. unfold checkJobStateChanges. by rewrite He. Qed.

Lemma checkJobStateChanges_disabled cfg table oldJobs newJobs :
  enableNotifications cfg = false →
  checkJobStateChanges cfg table oldJobs newJobs = ([], table).
Proof. intros He. unfold checkJobStateChanges. by rewrite He. Qed.

(** *** The first two loops *)

Lemma startedStep_elem cfg table oldMap k v b :
  b ∈ startedStep cfg table oldMap (k, v) → b = Started k (name v).
Proof.
  unfold startedStep. simpl. destruct (_ && _); [|by intros ?%elem_of_nil].
  by intros ->%list_elem_of_singleton.
Qed.

Lemma completedStep_elem cfg newMap k v b :
  b ∈ completedStep cfg newMap (k, v) → b = Completed k (name v).
Proof.
  unfold completedStep. simpl. destruct (negb _); [|by intros ?%elem_of_nil].
  destruct (_ && _); [|by intros ?%elem_of_nil].
  by intros ->%list_elem_of_singleton.
Qed.

Lemma started_loop_elem cfg table oldMap (m : JsMap.t string SlurmJob) b :
  b ∈ m ≫= startedStep cfg table oldMap → ∃ k nm, b = Started k nm.
Proof.
  intros ([k v] & Hb & _)%list_elem_of_bind. apply startedStep_elem in Hb. eauto.
Qed.

Lemma completed_loop_elem cfg newMap (m : JsMap.t string SlurmJob) b :
  b ∈ m ≫= completedStep cfg newMap → ∃ k nm, b = Completed k nm.
Proof.
  intros ([k v] & Hb & _)%list_elem_of_bind. apply completedStep_elem in Hb. eauto.
Qed.

(** The started notifications of one pass that concern [id]. *)
Lemma started_of_pass cfg table oldJobs newJobs id :
  enableNotifications cfg = true →
  List.filter (isStartedOf id) (checkJobStateChanges cfg table oldJobs newJobs).1 =
    match entryOf id newJobs with
    | Some j' => List.filter (isStartedOf id)
                   (startedStep cfg table (jobMap oldJobs) (id, j'))
    | None => []
    end.
Proof.
  intros He. rewrite checkJobStateChanges_enabled by done. simpl.
  rewrite !List.filter_app.
  assert (List.filter (isStartedOf id)
            (jobMap oldJobs ≫= completedStep cfg (jobMap newJobs)) = []) as ->.
  { apply filter_none. by intros b (a & nm & ->)%completed_loop_elem. }
  assert (List.filter (isStartedOf id) (foldl (failStep cfg) ([], table) newJobs).1 = []) as ->.
  { apply filter_none. by intros b (a & nm & st & ->)%failStep_loop_shown. }
  rewrite !app_nil_r, (filter_bind_keyed _ _ _ id), jobMap_get; [done|apply jobMap_NoDup|].
  intros k' v b Hne ->%startedStep_elem. simpl. by apply bool_decide_eq_false.
Qed.

(** The completed notifications of one pass that concern [id]. *)
Lemma completed_of_pass cfg table oldJobs newJobs id :
  enableNotifications cfg = true →
  List.filter (isCompletedOf id) (checkJobStateChanges cfg table oldJobs newJobs).1 =
    match entryOf id oldJobs with
    | Some j => List.filter (isCompletedOf id)
                  (completedStep cfg (jobMap newJobs) (id, j))
    | None => []
    end.
Proof.
  intros He. rewrite checkJobStateChanges_enabled by done. simpl.
  rewrite !List.filter_app.
  assert (List.filter (isCompletedOf id)
            (jobMap newJobs ≫= startedStep cfg table (jobMap oldJobs)) = []) as ->.
  { apply filter_none. by intros b (a & nm & ->)%started_loop_elem. }
  assert (List.filter (isCompletedOf id) (foldl (failStep cfg) ([], table) newJobs).1 = []) as ->.
  { apply filter_none. by intros b (a & nm & st & ->)%failStep_loop_shown. }
  rewrite app_nil_r. simpl. rewrite (filter_bind_keyed _ _ _ id), jobMap_get; [done|apply jobMap_NoDup|].
  intros k' v b Hne ->%completedStep_elem. simpl. by apply bool_decide_eq_false.
Qed.

Lemma table_after_pass cfg table oldJobs newJobs id j' :
  enableNotifications cfg = true → entryOf id newJobs = Some j' →
  (checkJobStateChanges cfg table oldJobs newJobs).2 !! id = Some (state j').
Proof.
  intros He Hentry. rewrite checkJobStateChanges_enabled by done. simpl.
  by rewrite failStep_loop_table, Hentry.
Qed.

(** While a job stays RUNNING from one list to the next and the table has
    it as RUNNING, no pass announces its start. *)
Lemma passes_quiet cfg id later :
  enableNotifications cfg = true →
  Forall (λ snapshot, ∃ j, entryOf id snapshot = Some j ∧ state j = "RUNNING") later →
  ∀ table oldJobs j,
    entryOf id oldJobs = Some j → state j = "RUNNING" → table !! id = Some "RUNNING" →
    List.filter (isStartedOf id) (passes cfg table oldJobs later) = [].
Proof.
  intros He. induction 1 as [|newJobs later (j' & Hnew & Hrun') _ IH];
    intros table oldJobs j Hold Hrun Htable; [done|].
  simpl. rewrite List.filter_app, started_of_pass, Hnew by done.
  rewrite (IH _ newJobs j'); [|done|done|].
  - rewrite app_nil_r. unfold startedStep. simpl.
    rewrite Htable, jobMap_get, Hold. simpl. rewrite Hrun.
    rewrite (bool_decide_eq_false_2 (Some "RUNNING" = Some "PENDING")) by done.
    by rewrite andb_false_r.
  - rewrite (table_after_pass _ _ _ _ _ j') by done. by rewrite Hrun'.
Qed.

(** A refresh that succeeds is one pass over the list held before and the
    list fetched. *)
Lemma refreshJobs_pass cfg svc p table newJobs :
  fetch svc p = Returns newJobs →
  refreshJobs cfg svc (p, table) =
    (refresh svc p,
     (checkJobStateChanges cfg table (jobs p) newJobs).2,
     (checkJobStateChanges cfg table (jobs p) newJobs).1)
  ∧ jobs (refresh svc p) = newJobs.
Proof.
  intros Hfetch. unfold refreshJobs. simpl.
  assert (jobs (refresh svc p) = newJobs) as Hjobs.
  { unfold refresh. by rewrite fetch_refresh_begin, Hfetch. }
  rewrite Hjobs. by destruct (checkJobStateChanges cfg table (jobs p) newJobs).
Qed.

(** *** Remarks on neighbouring behaviour *)

(** In the queue listing a node-count field that is present but holds no
    number gives [NaN]: unlike the accounting parser, [getJobs] has no
    [|| 0] after [parseInt]. *)
Lemma parseSqueueLine_nodes_unparseable :
  nodes (parseSqueueLine "1|job|p|PD|0:00|1:00|n/a|Priority|N/A|N/A") = Js.NaN ∧
  nodes (parseSacctLine "1|job|p|PD|0:00|1:00|n/a|Priority|N/A|N/A") = Js.Num 0.
Proof. split; reflexivity. Qed.

(** [executeCommand] hands the message of the error to its caller as
    [stderr] when the failed process wrote nothing there; [cancelJob] then
    throws with that message. *)
Lemma cancelJob_after_silent_exit jobId e :
  err_stderr e = Some "" → Js.truthy (err_message e) = true →
  cancelJob jobId (executeCommand (Rejected e))
  = Throws ("Failed to cancel job " +:+ jobId +:+ ": " +:+ err_message e).
Proof.
  intros Herr Hmsg. unfold cancelJob, executeCommand. simpl. rewrite Herr. simpl.
  by rewrite Hmsg.
Qed.

(** A state code followed by a small letter is cut at that letter. *)
Lemma parseJobState_small_letter : parseJobState "Rx" = "RUNNING".
Proof. reflexivity. Qed.

(** The marker is looked for as it is spelt, capital letter included. *)
Lemma getJobDetails_marker_case :
  d_jobId <$> getJobDetails (executeCommand (Resolved "JobId=7 note: invalid job id" ""))
  = Some "7".
Proof. reflexivity. Qed.

(** *** The tests of the repository, replayed *)

(** "should parse scontrol show job output" *)
Lemma test_parse_scontrol :
  (λ d, (d_jobId d, d_name d, d_state d, d_partition d, d_numCPUs d,
         d_stdoutPath d, d_stderrPath d, d_workDir d))
    <$> getJobDetails (executeCommand (Resolved scontrolOutput ""))
  = Some ("12345", "test_job", "RUNNING", "gpu", 4%Z,
          "/home/testuser/job.out", "/home/testuser/job.err", "/home/testuser/project").
Proof. reflexivity. Qed.

(** "should return null for invalid job id" *)
Lemma test_invalid_job_id :
  getJobDetails (executeCommand (Resolved "Invalid job id specified" "")) = None.
Proof. reflexivity. Qed.

(** "should parse basic squeue output correctly" and "should handle
    empty squeue output" *)
Lemma test_parse_squeue :
  (λ j, (jobId j, name j, partition j, state j, timeUsed j, nodes j, nodelist j))
    <$$> getJobs noRegExp defaultConfig None
           (executeCommand
              (Resolved ("12345|my_job|gpu|R|1:30:00|4:00:00|1|node01|2024-01-15T10:00:00|2024-01-15T14:00:00"
                         +:+ nl +:+
                         "12346|another_job|cpu|PD|0:00|2:00:00|2|Priority|N/A|N/A") ""))
  = Returns [("12345", "my_job", "gpu", "RUNNING", "1:30:00", Js.Num 1, "node01");
             ("12346", "another_job", "cpu", "PENDING", "0:00", Js.Num 2, "Priority")] ∧
  getJobs noRegExp defaultConfig None (executeCommand (Resolved "" "")) = Returns [].
Proof. split; reflexivity. Qed.

(** "should execute scancel command" and "should throw error on failure" *)
Lemma test_cancelJob :
  cancelJob "12345" (executeCommand (Resolved "" "")) = Returns true ∧
  cancelJob "99999"
    (executeCommand (Rejected {| err_message := ""; err_stdout := None;
                                 err_stderr := Some "Job not found"; err_code := Some 1%Z |}))
  = Throws "Failed to cancel job 99999: Job not found".
Proof. split; reflexivity. Qed.

(** "should not group single array task" *)
Lemma test_single_array_task :
  getChildren (toggleGrouping (loaded true true [mockJob "12345_1" "sweep" "RUNNING"])) None
  = [JobNode (jobItem (mockJob "12345_1" "sweep" "RUNNING"))].
Proof. reflexivity. Qed.

(** * The claims *)



(** C2, as the code has it. For a listing whose lines are [ls], [N] of
    them well-formed, and a non-negative [maxJobsDisplayed], [getJobs]
    without a filter returns the jobs parsed from the first
    [min N maxJobsDisplayed] well-formed lines, in the order of the lines;
    it returns [N] jobs exactly when [N] does not exceed the limit. *)
Theorem getJobs_listing_limited (RegExp_i : string → outcome (string → bool))
    (cfg : SlurmConfig) (ls : list string) (r : CommandResult) :
  success r = true → stdout r = Js.join nl ls →
  Forall (λ l, Js.includes_char LF l = false) ls →
  (0 ≤ maxJobsDisplayed cfg)%Z →
  let wf := List.filter well_formed ls in
  let n := Z.to_nat (maxJobsDisplayed cfg) `min` length wf in
  ∃ js, getJobs RegExp_i cfg None r = Returns js ∧
        js = parseSqueueLine <$> take n wf ∧
        length js = n ∧
        (length js = length wf ↔ (Z.of_nat (length wf) ≤ maxJobsDisplayed cfg)%Z).
Proof.
  intros Hok Hout Hlf Hmax wf n.
  exists (parseSqueueLine <$> take n wf).
  assert (length (parseSqueueLine <$> take n wf) = n) as Hlen.
  { rewrite length_fmap, length_take. lia. }
  split_and!; [|done|done|rewrite Hlen; lia].
  rewrite (getJobs_lines _ cfg ls r Hok Hout Hlf), slice0_nonneg by done.
  rewrite <- fmap_take. f_equal. f_equal. subst n wf.
  destruct (decide (Z.to_nat (maxJobsDisplayed cfg) ≤ length (List.filter well_formed ls))).
  - by rewrite Nat.min_l.
  - rewrite Nat.min_r by lia. by rewrite !take_ge by lia.
Qed.

Lemma getJobs_listing_limited_witness :
  ∃ js, getJobs noRegExp defaultConfig None
          (executeCommand (Resolved ("12345|my_job|gpu|R|1:30:00|4:00:00|1|node01|a|b" +:+ nl +:+
                                     "   " +:+ nl +:+
                                     "12346|another_job|cpu|PD|0:00|2:00:00|2|Priority|N/A|N/A") ""))
        = Returns js ∧ jobId <$> js = ["12345"; "12346"].
Proof.
  destruct (getJobs_listing_limited noRegExp defaultConfig
              ["12345|my_job|gpu|R|1:30:00|4:00:00|1|node01|a|b"; "   ";
               "12346|another_job|cpu|PD|0:00|2:00:00|2|Priority|N/A|N/A"]
              (executeCommand (Resolved ("12345|my_job|gpu|R|1:30:00|4:00:00|1|node01|a|b" +:+ nl +:+
                                     "   " +:+ nl +:+
                                     "12346|another_job|cpu|PD|0:00|2:00:00|2|Priority|N/A|N/A") "")))
    as (js & Hjs & Heq & _).
  - reflexivity.
  - reflexivity.
  - repeat constructor.
  - vm_compute. discriminate.
  - exists js. split; [exact Hjs|]. rewrite Heq. reflexivity.
Defined.

(** C2 as stated fails: with the default configuration a listing of 101
    well-formed lines yields 100 jobs. *)
Lemma getJobs_listing_not_all :
  length (List.filter well_formed long_listing) = 101 ∧
  ∃ js, getJobs noRegExp defaultConfig None
          (executeCommand (Resolved (Js.join nl long_listing) "")) = Returns js ∧
        length js = 100.
Proof.
  split; [by vm_compute|].
  eexists. split; [vm_compute; reflexivity|]. by vm_compute.
Qed.




(** C7. A detailed dump that contains the marker "Invalid job id" is
    answered with [null], whatever stands before and after the marker and
    whether or not the command succeeded. *)
Theorem getJobDetails_invalid_job_id (r : CommandResult) (before after : string) :
  stdout r = before +:+ INVALID_JOB_ID +:+ after → getJobDetails r = None.
Proof.
  intros Hout. unfold getJobDetails.
  by rewrite Hout, includes_middle, !orb_true_r.
Qed.

Lemma getJobDetails_invalid_job_id_witness :
  getJobDetails
    (executeCommand
       (Resolved "JobId=99999 JobName=ghost slurm_load_jobs error: Invalid job id specified JobState=RUNNING" ""))
  = None.
Proof.
  apply (getJobDetails_invalid_job_id _
           "JobId=99999 JobName=ghost slurm_load_jobs error: "
           " specified JobState=RUNNING").
  reflexivity.
Defined.

(** C8. When the call awaited by [refresh] throws, the provider ends up
    with an empty job list and with the thrown message in [lastError];
    when the call returns, [lastError] is cleared (and the list is the
    one returned). *)
Theorem refresh_records_outcome (svc : SlurmService) (p : SlurmJobsProvider) :
  (∀ message, fetch svc p = Throws message →
     jobs (refresh svc p) = [] ∧ lastError (refresh svc p) = Some message) ∧
  (∀ js, fetch svc p = Returns js →
     lastError (refresh svc p) = None ∧ jobs (refresh svc p) = js).
Proof.
  split; intros x Hfetch; unfold refresh;
    rewrite fetch_refresh_begin, Hfetch; by split.
Qed.

Lemma refresh_records_outcome_witness :
  let failing :=
    commandService noRegExp "me" defaultConfig
      (executeCommand (Rejected {| err_message := "Command failed: squeue";
                                   err_stdout := Some ""; err_stderr := Some "Connection failed";
                                   err_code := Some 255%Z |})) in
  let working :=
    commandService noRegExp "me" defaultConfig
      (executeCommand (Resolved "1|job|p|R|0:00|1:00|1|n|N/A|N/A" "")) in
  let p := refresh working (newProvider true) in
  jobs p ≠ [] ∧
  jobs (refresh failing p) = [] ∧
  lastError (refresh failing p) = Some "Failed to get jobs: Connection failed" ∧
  lastError (refresh working (refresh failing p)) = None.
Proof.
  intros failing working p. split_and!.
  - vm_compute. discriminate.
  - apply (proj1 (refresh_records_outcome failing p) "Failed to get jobs: Connection failed").
    reflexivity.
  - apply (proj1 (refresh_records_outcome failing p) "Failed to get jobs: Connection failed").
    reflexivity.
  - apply (proj2 (refresh_records_outcome working (refresh failing p)) (jobs p)).
    reflexivity.
Defined.



(** C4. The category items are, in the fixed order RUNNING, PENDING,
    COMPLETING, COMPLETED, FAILED, CANCELLED, TIMEOUT, one item for every
    one of these states that some job is in, carrying the exact number of
    jobs in that state, followed, when some job is in any other state, by
    an OTHER item carrying the number of all such jobs. For two RUNNING
    jobs, one PENDING and one COMPLETED the items are RUNNING 2, PENDING 1,
    COMPLETED 1. *)
Theorem getCategoryItems_counts (p : SlurmJobsProvider) :
  getCategoryItems p =
    ((λ s, {| cat_state := s; cat_count := length (inState s (jobs p)) |}) <$>
       List.filter (λ s, (0 <? length (inState s (jobs p)))%nat) order)
    ++ (if (0 <? length (inOtherStates (jobs p)))%nat
        then [{| cat_state := "OTHER"; cat_count := length (inOtherStates (jobs p)) |}]
        else [])
  ∧ order = ["RUNNING"; "PENDING"; "COMPLETING"; "COMPLETED"; "FAILED"; "CANCELLED"; "TIMEOUT"]
  ∧ getCategoryItems
      (loaded true true
         [mockJob "1" "a" "RUNNING"; mockJob "2" "b" "PENDING";
          mockJob "3" "c" "RUNNING"; mockJob "4" "d" "COMPLETED"])
    = [{| cat_state := "RUNNING"; cat_count := 2 |};
       {| cat_state := "PENDING"; cat_count := 1 |};
       {| cat_state := "COMPLETED"; cat_count := 1 |}].
Proof.
  split_and!; [|reflexivity|reflexivity].
  unfold getCategoryItems. cbv zeta. rewrite !getJobCounts_counts.
  pose proof (counts_sum (λ s, negb (bool_decide (s ∈ order))) (jobs p)) as Hsum.
  cbv beta in Hsum. rewrite Hsum. fold (inOtherStates (jobs p)).
  rewrite (map_filter_ext _
             (λ s, {| cat_state := s; cat_count := length (inState s (jobs p)) |}) _
             (λ s, (0 <? length (inState s (jobs p)))%nat) order).
  - by destruct (0 <? length (inOtherStates (jobs p)))%nat; rewrite ?app_nil_r.
  - intros s. rewrite counts_get. by destruct (length (inState s (jobs p))).
  - intros s. rewrite counts_get. by destruct (length (inState s (jobs p))).
Qed.



(** C6, as the code has it. With array grouping off, the jobs shown in a
    category, and in the flat list, are in the order in which they were
    fetched. With array grouping on they are regrouped: first the array
    clusters, in the order in which their array ids first occur, the tasks
    of each cluster in fetch order, then the jobs outside any array, in
    fetch order. The children of an array parent are its tasks in the
    order in which it holds them. *)
Theorem display_order (p : SlurmJobsProvider) :
  isLoading p = false → lastError p = None →
  let shown (source : list SlurmJob) (items : list JobTreeItem) :=
    displayedJobs items = if groupArrayJobs p then clustered source else source in
  (groupByState p = false → jobs p ≠ [] →
     ∃ items, getChildren p None = JobNode <$> items ∧ shown (jobs p) items) ∧
  (∀ c, ∃ items, getChildren p (Some (CategoryNode c)) = JobNode <$> items ∧
                 shown (inState (cat_state c) (jobs p)) items ∧
                 inState (cat_state c) (jobs p) `sublist_of` jobs p) ∧
  (∀ i, isArrayParent i = true →
        getChildren p (Some (JobNode i)) = (λ t, JobNode (jobItem t)) <$> arrayTasks i) ∧
  (∀ source id, cluster id source `sublist_of` source ∧
                standalone source `sublist_of` source ∧
                NoDup (arrayIds source)).
Proof.
  intros Hload Herr shown. unfold getChildren. rewrite Hload, Herr. split_and!;
    [| |by intros i ->|].
  - intros Hflat Hjobs. rewrite Hflat. exists (getJobItems p (jobs p)).
    split; [by destruct (jobs p)|]. apply displayedJobs_getJobItems.
  - intros c. exists (getJobItems p (inState (cat_state c) (jobs p))).
    split_and!; [done|apply displayedJobs_getJobItems|apply filter_sublist].
  - intros source id. split_and!; [apply filter_sublist|apply filter_sublist|apply NoDup_firsts].
Qed.

Lemma display_order_witness :
  let solo := mockJob "99999" "train" "RUNNING" in
  let t1 := mockJob "777_1" "sweep" "RUNNING" in
  let t2 := mockJob "777_2" "sweep" "RUNNING" in
  ∃ items,
    getChildren (loaded false false [solo; t1; t2]) None = JobNode <$> items ∧
    displayedJobs items = [solo; t1; t2].
Proof.
  intros solo t1 t2.
  destruct (display_order (loaded false false [solo; t1; t2])) as (Hflat & _ & _ & _);
    [reflexivity|reflexivity|].
  destruct Hflat as (items & Hitems & Hshown); [reflexivity|discriminate|].
  exists items. split; [exact Hitems|exact Hshown].
Defined.

(** C6 as stated fails: with array grouping on, a lone array task that
    was fetched after an ordinary job is shown before it, in the flat
    list and within a category alike. *)
Lemma display_order_not_preserved :
  let solo := mockJob "99999" "train" "RUNNING" in
  let task := mockJob "12345_1" "sweep" "RUNNING" in
  jobs (loaded false true [solo; task]) = [solo; task] ∧
  getChildren (loaded false true [solo; task]) None
    = [JobNode (jobItem task); JobNode (jobItem solo)] ∧
  getChildren (loaded true true [solo; task])
              (Some (CategoryNode {| cat_state := "RUNNING"; cat_count := 2 |}))
    = [JobNode (jobItem task); JobNode (jobItem solo)].
Proof. intros solo task. split_and!; reflexivity. Qed.

(** C9, as the code has it. Let a job have an entry in the old snapshot.
    With notifications enabled and [notifyOnComplete] on, if that entry is
    RUNNING or COMPLETING and the job is absent from the new snapshot, the
    pass shows one completed notification for it. If the entry is PENDING
    and the job is absent from the new snapshot, the pass shows no
    completed notification for it, under any configuration. With
    notifications enabled and [notifyOnStart] on, if the entry is PENDING
    and the job is RUNNING in the new snapshot, a started notification
    for it is shown exactly once over that pass and all following passes
    in which it is still RUNNING. *)
Theorem reconcile_events (cfg : SlurmConfig) (table : gmap string string)
    (oldJobs newJobs : list SlurmJob) (id : string) (j : SlurmJob) :
  entryOf id oldJobs = Some j →
  let shown := (checkJobStateChanges cfg table oldJobs newJobs).1 in
  (enableNotifications cfg = true → notifyOnComplete cfg = true →
   id ∉ jobId <$> newJobs → state j = "RUNNING" ∨ state j = "COMPLETING" →
     List.filter (isCompletedOf id) shown = [Completed id (name j)]) ∧
  (id ∉ jobId <$> newJobs → state j = "PENDING" →
     List.filter (isCompletedOf id) shown = []) ∧
  (enableNotifications cfg = true → notifyOnStart cfg = true → state j = "PENDING" →
   ∀ j' later,
     entryOf id newJobs = Some j' → state j' = "RUNNING" →
     Forall (λ snapshot, ∃ j'', entryOf id snapshot = Some j'' ∧ state j'' = "RUNNING") later →
     List.filter (isStartedOf id) (passes cfg table oldJobs (newJobs :: later))
     = [Started id (name j')]).
Proof.
  intros Hold shown. subst shown. split_and!.
  - intros He Hc Habsent Hstate. rewrite completed_of_pass, Hold by done.
    unfold completedStep. simpl.
    rewrite jobMap_has, (bool_decide_eq_false_2 _ Habsent), Hc. simpl.
    destruct Hstate as [-> | ->]; simpl; by rewrite bool_decide_eq_true_2.
  - intros Habsent Hstate. destruct (enableNotifications cfg) eqn:He.
    + rewrite completed_of_pass, Hold by done. unfold completedStep. simpl.
      rewrite Hstate. simpl. by destruct (negb _), (notifyOnComplete cfg).
    + by rewrite checkJobStateChanges_disabled.
  - intros He Hs Hstate j' later Hnew Hrun Hlater. simpl.
    rewrite List.filter_app, started_of_pass, Hnew by done.
    rewrite (passes_quiet cfg id later He Hlater _ newJobs j'); [|done|done|].
    + rewrite app_nil_r. unfold startedStep. simpl.
      rewrite Hs, Hrun, jobMap_get, Hold. simpl. rewrite Hstate. simpl.
      rewrite orb_true_r. simpl. by rewrite bool_decide_eq_true_2.
    + rewrite (table_after_pass _ _ _ _ _ j') by done. by rewrite Hrun.
Qed.

Lemma reconcile_events_witness :
  let waiting := mockJob "4711" "train" "PENDING" in
  let running := mockJob "4711" "train" "RUNNING" in
  let other := mockJob "4712" "eval" "PENDING" in
  List.filter (isStartedOf "4711")
    (passes notifyAll ∅ [waiting; other] [[running; other]; [other; running]; [running]])
    = [Started "4711" "train"] ∧
  List.filter (isCompletedOf "4711")
    (checkJobStateChanges notifyAll ∅ [running; other] [other]).1
    = [Completed "4711" "train"] ∧
  List.filter (isCompletedOf "4712")
    (checkJobStateChanges notifyAll ∅ [running; other] [running]).1 = [].
Proof.
  intros waiting running other. split_and!.
  - destruct (reconcile_events notifyAll ∅ [waiting; other] [running; other] "4711" waiting)
      as (_ & _ & Hstart); [reflexivity|].
    apply (Hstart eq_refl eq_refl eq_refl running [[other; running]; [running]]);
      [reflexivity|reflexivity|].
    repeat constructor; by exists running.
  - destruct (reconcile_events notifyAll ∅ [running; other] [other] "4711" running)
      as (Hdone & _ & _); [reflexivity|].
    apply Hdone; [reflexivity|reflexivity| |by left].
    apply (bool_decide_unpack _). by vm_compute.
  - destruct (reconcile_events notifyAll ∅ [running; other] [running] "4712" other)
      as (_ & Hquiet & _); [reflexivity|].
    apply Hquiet; [|reflexivity].
    apply (bool_decide_unpack _). by vm_compute.
Defined.

(** C9 as stated fails: under the default configuration, a job that was
    PENDING and is now RUNNING is announced in no pass at all. *)
Lemma reconcile_start_not_announced :
  let waiting := mockJob "4711" "train" "PENDING" in
  let running := mockJob "4711" "train" "RUNNING" in
  entryOf "4711" [waiting] = Some waiting ∧
  entryOf "4711" [running] = Some running ∧
  (checkJobStateChanges defaultConfig ∅ [waiting] [running]).1 = [] ∧
  passes defaultConfig ∅ [waiting] [[running]; [running]] = [].
Proof. intros waiting running. split_and!; reflexivity. Qed.

(** * Further properties of the code *)

(** ** The state normaliser *)

Lemma STATE_TABLE_values_fixed :
  Forall (λ kv, parseJobState kv.2 = kv.2) STATE_TABLE.
Proof. apply (bool_decide_unpack _). by vm_compute. Qed.

(** X1. Normalising is idempotent: a state that has been normalised is
    left alone by a second pass. In particular the long state names,
    which the default [squeue] format prints, pass through unchanged. *)
Theorem parseJobState_idempotent (code : string) :
  parseJobState (parseJobState code) = parseJobState code.
Proof.
  rewrite (parseJobState_unfold code).
  destruct (STATE_MAP !! leading_run code) as [v|] eqn:Hv.
  - apply elem_of_list_to_map in Hv; [|apply STATE_TABLE_keys_NoDup].
    rewrite or_else_truthy by by eapply STATE_TABLE_values_truthy.
    by apply (proj1 (Forall_forall _ _) STATE_TABLE_values_fixed (leading_run code, v)).
  - simpl. rewrite parseJobState_unfold, Hv. done.
Qed.

(** ** Running a command *)

Lemma trim_end_idem s : Js.trim_end (Js.trim_end s) = Js.trim_end s.
Proof.
  induction s as [|c s IH]; [done|]. simpl.
  destruct (Js.trim_end s) as [|d r] eqn:E.
  - destruct (Js.is_space c) eqn:Hc; simpl; [done|]. by rewrite Hc.
  - simpl in *. by rewrite IH.
Qed.

Lemma trim_end_head c s :
  Js.is_space c = false → ∃ r, Js.trim_end (String c s) = String c r.
Proof.
  intros Hc. simpl. destruct (Js.trim_end s); [rewrite Hc|]; eauto.
Qed.

Lemma trim_start_head s :
  Js.trim_start s = EmptyString ∨
  ∃ c r, Js.trim_start s = String c r ∧ Js.is_space c = false.
Proof.
  induction s as [|c s IH]; [by left|]. simpl.
  destruct (Js.is_space c) eqn:Hc; [done|]. right. eauto.
Qed.

Lemma trim_start_fixed c r :
  Js.is_space c = false → Js.trim_start (String c r) = String c r.
Proof. intros Hc. simpl. by rewrite Hc. Qed.

(** Trimming what is trimmed changes nothing. *)
Lemma trim_idem s : Js.trim (Js.trim s) = Js.trim s.
Proof.
  unfold Js.trim. destruct (trim_start_head s) as [->|(c & r & -> & Hc)]; [done|].
  destruct (trim_end_head c r Hc) as [r' Hr]. rewrite Hr.
  rewrite trim_start_fixed by done. rewrite <- Hr. apply trim_end_idem.
Qed.

Lemma trim_truthy_head s c r : Js.trim s = String c r → Js.is_space c = false.
Proof.
  unfold Js.trim. destruct (trim_start_head s) as [->|(c' & r' & -> & Hc)]; [done|].
  destruct (trim_end_head c' r' Hc) as [r'' ->]. by intros [= <- _].
Qed.

(** X2. Whatever the command did, [executeCommand] reports success exactly
    when it resolved, exit code 0 exactly on success (a failure without a
    code, or with code 0, is given code 1), a [stdout] without leading or
    trailing white space, and on success a [stderr] without either. *)
Theorem executeCommand_result (o : ExecOutcome) :
  (success (executeCommand o) = true ↔ ∃ out err, o = Resolved out err) ∧
  (exitCode (executeCommand o) = 0%Z ↔ success (executeCommand o) = true) ∧
  Js.trim (stdout (executeCommand o)) = stdout (executeCommand o) ∧
  (success (executeCommand o) = true →
   Js.trim (stderr (executeCommand o)) = stderr (executeCommand o)).
Proof.
  destruct o as [out err|e]; simpl; split_and!.
  - split; [eauto|done].
  - done.
  - apply trim_idem.
  - intros _. apply trim_idem.
  - split; [done|]. by intros (? & ? & ?).
  - split; [|done]. destruct (err_code e) as [c|]; [|done].
    destruct (c =? 0)%Z eqn:E; [done|]. by intros ->.
  - destruct (err_stdout e) as [s|]; [|done]. simpl.
    destruct (Js.trim s) eqn:E; [done|]. rewrite <- E. apply trim_idem.
  - done.
Qed.

Lemma executeCommand_result_witness :
  exitCode (executeCommand (Rejected {| err_message := "killed"; err_stdout := None;
                                        err_stderr := None; err_code := Some 0%Z |})) ≠ 0%Z ∧
  Js.trim (stderr (executeCommand (Resolved "ok" "  late warning  ")))
  = stderr (executeCommand (Resolved "ok" "  late warning  ")).
Proof.
  split.
  - intros Hz.
    apply (proj1 (proj1 (proj2 (executeCommand_result _)))) in Hz. discriminate Hz.
  - apply (proj2 (proj2 (proj2 (executeCommand_result _)))). reflexivity.
Defined.

(** ** Commands that only report success *)

Lemma stderr_of_rejected e :
  Js.truthy (stderr (executeCommand (Rejected e))) = false ↔ silent e.
Proof.
  unfold silent. simpl. destruct (err_stderr e) as [s|]; simpl.
  - destruct (Js.trim s) as [|c r]; simpl.
    + destruct (err_message e); simpl; split; try done; by intros [? _].
    + split; [done|]. by intros [_ ?].
  - destruct (err_message e); simpl; split; try done; by intros [? _].
Qed.

(** X3. Taken together with [executeCommand], [cancelJob], [cancelJobs],
    [holdJob] and [releaseJob] answer [true] exactly when the command
    resolved, or was rejected without any text on [stderr] and with an
    empty error message; in every other case they throw. An error
    message alone is enough to make them throw. *)
Theorem silent_commands_answer (jobId : string) (o : ExecOutcome) :
  let quiet := match o with Resolved _ _ => True | Rejected e => silent e end in
  (cancelJob jobId (executeCommand o) = Returns true ↔ quiet) ∧
  (cancelJobs (executeCommand o) = Returns true ↔ quiet) ∧
  (holdJob (executeCommand o) = Returns true ↔ quiet) ∧
  (releaseJob (executeCommand o) = Returns true ↔ quiet) ∧
  (¬ quiet → ∃ message,
     cancelJob jobId (executeCommand o)
     = Throws ("Failed to cancel job " +:+ jobId +:+ ": " +:+ message) ∧
     holdJob (executeCommand o) = Throws ("Failed to hold job: " +:+ message)).
Proof.
  destruct o as [out err|e]; simpl.
  - split_and!; done.
  - pose proof (stderr_of_rejected e) as Hs. simpl in Hs.
    unfold cancelJob, cancelJobs, holdJob, releaseJob. simpl.
    destruct (Js.truthy (Js.or_else (Js.trim <$> err_stderr e) (err_message e))) eqn:Ht.
    + assert (¬ silent e) as Hn by (intros ?%Hs; done).
      split_and!; try (split; [done|by intros ?%Hn]). intros _. eauto.
    + assert (silent e) as Hq by by apply Hs.
      split_and!; done.
Qed.

Lemma silent_commands_answer_witness :
  cancelJob "7" (executeCommand (Rejected {| err_message := ""; err_stdout := None;
                                             err_stderr := Some "  "; err_code := Some 1%Z |}))
  = Returns true ∧
  ∃ message,
    holdJob (executeCommand (Rejected {| err_message := "Command failed: scontrol hold 7";
                                         err_stdout := None; err_stderr := Some "";
                                         err_code := Some 1%Z |}))
    = Throws ("Failed to hold job: " +:+ message).
Proof.
  split.
  - apply (proj1 (silent_commands_answer "7" (Rejected _))). by split.
  - destruct (proj2 (proj2 (proj2 (proj2 (silent_commands_answer "7"
               (Rejected {| err_message := "Command failed: scontrol hold 7";
                            err_stdout := None; err_stderr := Some "";
                            err_code := Some 1%Z |}))))))
      as (message & _ & Hhold).
    + intros [Hm _]. discriminate Hm.
    + by exists message.
Defined.

(** ** The ssh wrapper *)

Lemma string_app_assoc (a b c : string) : (a +:+ b) +:+ c = a +:+ b +:+ c.
Proof.
  induction a as [|x a IH]; [done|].
  change (String x ((a +:+ b) +:+ c) = String x (a +:+ b +:+ c)). by f_equal.
Qed.

Lemma string_app_nil_r (a : string) : a +:+ "" = a.
Proof.
  induction a as [|x a IH]; [done|].
  change (String x (a +:+ "") = String x a). by f_equal.
Qed.

Lemma replace_all_char_cons c r a s :
  replace_all_char c r (String a s) =
    if Js.eqc c a then r +:+ replace_all_char c r s
    else String a (replace_all_char c r s).
Proof. done. Qed.

Lemma sh_word_inside c s :
  sh_word true (String c s) =
    if Js.eqc c "'" then sh_word false s else String c <$> sh_word true s.
Proof. done. Qed.

Lemma sh_word_quoted_body command rest :
  sh_word true (replace_all_char "'" "'\''" command +:+ String "'" rest)
  = (λ r, command +:+ r) <$> sh_word false rest.
Proof.
  induction command as [|c command IH].
  - simpl. by destruct (sh_word false rest).
  - rewrite replace_all_char_cons. destruct (Js.eqc "'" c) eqn:Hc.
    + apply Ascii.eqb_eq in Hc as <-.
      change (("'\''" +:+ replace_all_char "'" "'\''" command) +:+ String "'" rest)
        with (String "'" (String "\" (String "'" (String "'"
               (replace_all_char "'" "'\''" command +:+ String "'" rest))))).
      rewrite sh_word_inside. simpl. rewrite IH. by destruct (sh_word false rest).
    + assert (Js.eqc c "'" = false) as Hc'.
      { unfold Js.eqc in *. by rewrite Ascii.eqb_sym. }
      change (String c (replace_all_char "'" "'\''" command) +:+ String "'" rest)
        with (String c (replace_all_char "'" "'\''" command +:+ String "'" rest)).
      rewrite sh_word_inside, Hc', IH. by destruct (sh_word false rest).
Qed.

Lemma join_snoc sep l w :
  l ≠ [] → Js.join sep (l ++ [w]) = Js.join sep l +:+ sep +:+ w.
Proof.
  induction l as [|x l IH]; [done|]. intros _. destruct l as [|y l].
  - done.
  - change (Js.join sep ((x :: y :: l) ++ [w]))
      with (x +:+ sep +:+ Js.join sep ((y :: l) ++ [w])).
    rewrite IH by done.
    change (Js.join sep (x :: y :: l)) with (x +:+ sep +:+ Js.join sep (y :: l)).
    by rewrite !string_app_assoc.
Qed.

(** X4. Without a host [buildCommand] leaves the command alone. With a
    host the command line is [ssh], its options and the target, followed
    by one last word; read the way a shell reads single quotes and
    backslashes, that word is the command itself, whatever quotes the
    command contains. *)
Theorem buildCommand_quotes (cfg : SlurmConfig) (command : string) :
  (sshHost cfg = "" → buildCommand cfg command = command) ∧
  (sshHost cfg ≠ "" →
   ∃ front word, buildCommand cfg command = "ssh " +:+ front +:+ " " +:+ word ∧
                 sh_word false word = Some command).
Proof.
  unfold buildCommand. split.
  - by intros ->.
  - intros Hhost.
    assert (Js.truthy (sshHost cfg) = true) as -> by by destruct (sshHost cfg).
    cbv [negb]. unfold sshArgs. rewrite !app_assoc.
    rewrite join_snoc by (by destruct (Js.truthy (sshKeyPath cfg))).
    rewrite <- !app_assoc.
    exists (Js.join " "
              ((if Js.truthy (sshKeyPath cfg) then ["-i"; sshKeyPath cfg] else [])
               ++ ["-o"; "BatchMode=yes"; "-o"; "StrictHostKeyChecking=accept-new";
                   "-o"; "ConnectTimeout=10"]
               ++ [if Js.truthy (sshUser cfg) then sshUser cfg +:+ "@" +:+ sshHost cfg
                   else sshHost cfg])),
           ("'" +:+ replace_all_char "'" "'\''" command +:+ "'").
    split; [by destruct (Js.truthy (sshKeyPath cfg))|].
    change (sh_word true (replace_all_char "'" "'\''" command +:+ String "'" "")
            = Some command).
    rewrite sh_word_quoted_body. simpl. by rewrite string_app_nil_r.
Qed.

Lemma buildCommand_quotes_witness :
  ∃ front word,
    buildCommand
      {| refreshInterval := 30; autoRefresh := true; sshHost := "login.cluster";
         sshUser := "ada"; sshKeyPath := ""; squeueFormat := "%i";
         showAllUsers := false; partitionFilter := []; maxJobsDisplayed := 100;
         enableNotifications := true; notifyOnComplete := true;
         notifyOnFail := true; notifyOnStart := false |}
      "squeue -o '%i|%j'"
    = "ssh " +:+ front +:+ " " +:+ word ∧
    sh_word false word = Some "squeue -o '%i|%j'".
Proof.
  apply (proj2 (buildCommand_quotes _ "squeue -o '%i|%j'")). simpl. discriminate.
Defined.

(** ** Runs of characters *)

Lemma take_drop_while p s : Dump.take_while p s +:+ Dump.drop_while p s = s.
Proof.
  induction s as [|c s IH]; [done|]. simpl. destruct (p c); [|done].
  change (String c (Dump.take_while p s +:+ Dump.drop_while p s) = String c s).
  by f_equal.
Qed.

Lemma take_while_all_chars p s : all_chars p (Dump.take_while p s) = true.
Proof.
  induction s as [|c s IH]; [done|]. simpl. destruct (p c) eqn:Hc; [|done].
  simpl. by rewrite Hc.
Qed.

Lemma drop_while_head p s c r : Dump.drop_while p s = String c r → p c = false.
Proof.
  induction s as [|a s IH]; [done|]. simpl. destruct (p a) eqn:Ha; [done|].
  by intros [= <- _].
Qed.

Lemma take_while_app p a c r :
  all_chars p a = true → p c = false →
  Dump.take_while p (a +:+ String c r) = a ∧
  Dump.drop_while p (a +:+ String c r) = String c r.
Proof.
  intros Ha Hc. induction a as [|x a IH].
  - simpl. by rewrite Hc.
  - simpl in Ha. apply andb_true_iff in Ha as [Hx Ha].
    change (String x a +:+ String c r) with (String x (a +:+ String c r)).
    simpl. rewrite Hx. destruct (IH Ha) as [-> ->]. done.
Qed.

Lemma take_while_whole p a :
  all_chars p a = true → Dump.take_while p a = a ∧ Dump.drop_while p a = "".
Proof.
  induction a as [|x a IH]; [done|]. simpl.
  intros [Hx Ha]%andb_true_iff. rewrite Hx. destruct (IH Ha) as [-> ->]. done.
Qed.

Lemma all_chars_impl (p q : ascii → bool) s :
  (∀ c, p c = true → q c = true) → all_chars p s = true → all_chars q s = true.
Proof.
  intros Hpq. induction s as [|c s IH]; [done|]. simpl.
  intros [Hc Hs]%andb_true_iff. by rewrite (Hpq c Hc), IH.
Qed.

Lemma first_match_Some at_ o v :
  Dump.first_match at_ o = Some v → ∃ before rest, o = before +:+ rest ∧ at_ rest = Some v.
Proof.
  induction o as [|c o IH]; simpl.
  - destruct (at_ "") eqn:E; [|done]. intros [= ->]. by exists "", "".
  - destruct (at_ (String c o)) eqn:E.
    + intros [= ->]. by exists "", (String c o).
    + intros (before & rest & -> & Hrest)%IH. by exists (String c before), rest.
Qed.

Lemma after_prefix_Some p s r : after_prefix p s = Some r → s = p +:+ r.
Proof.
  revert s. induction p as [|a p IH]; intros s.
  - destruct s; simpl; by intros [= <-].
  - destruct s as [|b s]; simpl; [done|].
    destruct (Js.eqc a b) eqn:E; [|done]. apply Ascii.eqb_eq in E as ->.
    intros ->%IH. done.
Qed.

(** ** Job ids typed by the user *)

Lemma digit_not_underscore c : Js.is_digit c = true → Js.eqc "_" c = false.
Proof.
  intros Hd. destruct (Js.eqc "_" c) eqn:E; [|done].
  apply Ascii.eqb_eq in E as <-. done.
Qed.

Lemma isJobIdFormat_digits a : digits_only a → isJobIdFormat a = true.
Proof.
  intros [Hne Ha]. unfold isJobIdFormat.
  destruct (take_while_whole _ a Ha) as [-> ->]. by destruct a.
Qed.

Lemma isJobIdFormat_task a b :
  digits_only a → digits_only b → isJobIdFormat (a +:+ "_" +:+ b) = true.
Proof.
  intros [Hna Ha] [Hnb Hb]. unfold isJobIdFormat.
  change (a +:+ "_" +:+ b) with (a +:+ String "_" b).
  destruct (take_while_app Js.is_digit a "_" b Ha eq_refl) as [-> ->].
  destruct (take_while_whole _ b Hb) as [-> ->]. by destruct a, b.
Qed.

(** X5. The check on a typed job id lets through exactly the non-empty
    runs of digits and the pairs of such runs joined by one underscore;
    the empty input is told apart as missing. *)
Theorem validateInput_accepts (v : string) :
  (validateInput v = None ↔
     digits_only v ∨ ∃ a b, digits_only a ∧ digits_only b ∧ v = a +:+ "_" +:+ b) ∧
  (validateInput v = Some "Job ID required" ↔ v = "").
Proof.
  split.
  - split.
    + unfold validateInput. destruct v as [|c v]; [done|]. simpl Js.truthy. cbv [negb].
      destruct (isJobIdFormat (String c v)) eqn:Hf; [|done]. intros _.
      unfold isJobIdFormat in Hf.
      pose proof (take_drop_while Js.is_digit (String c v)) as Hsplit.
      pose proof (take_while_all_chars Js.is_digit (String c v)) as Hall.
      destruct (Dump.take_while Js.is_digit (String c v)) as [|a0 a] eqn:Ea; [done|].
      destruct (Dump.drop_while Js.is_digit (String c v)) as [|d r] eqn:Ed.
      * left. rewrite string_app_nil_r in Hsplit. rewrite <- Hsplit. by split.
      * right. destruct (Js.eqc d "_") eqn:Hd;
          [apply Ascii.eqb_eq in Hd as ->|by destruct d as [[] [] [] [] [] [] [] []]].
        pose proof (take_drop_while Js.is_digit r) as Hsplit'.
        pose proof (take_while_all_chars Js.is_digit r) as Hall'.
        destruct (Dump.take_while Js.is_digit r) as [|b0 b] eqn:Eb; [done|].
        destruct (Dump.drop_while Js.is_digit r) as [|? ?] eqn:Er; [|done].
        rewrite string_app_nil_r in Hsplit'. subst r.
        exists (String a0 a), (String b0 b). by split_and!.
    + intros [Hd|(a & b & Ha & Hb & ->)]; unfold validateInput.
      * rewrite (isJobIdFormat_digits v Hd). destruct Hd as [Hne _]. by destruct v.
      * rewrite (isJobIdFormat_task a b Ha Hb). destruct Ha as [Hne _]. by destruct a.
  - unfold validateInput. destruct v as [|c v]; [done|]. simpl Js.truthy. cbv [negb].
    by destruct (isJobIdFormat (String c v)).
Qed.

Lemma validateInput_digits a : digits_only a → validateInput a = None.
Proof.
  intros Hd. unfold validateInput. rewrite (isJobIdFormat_digits a Hd).
  destruct Hd as [Hne _]. by destruct a.
Qed.

Lemma validateInput_accepts_witness :
  validateInput "12345_7" = None ∧ validateInput "12345" = None.
Proof.
  split.
  - apply (proj1 (validateInput_accepts "12345_7")). right.
    exists "12345", "7". by split_and!.
  - apply (proj1 (validateInput_accepts "12345")). left. by split.
Defined.

(** ** Submitting *)

Lemma baseJobId_digits a : all_chars Js.is_digit a = true → baseJobId a = a.
Proof.
  intros Ha. unfold baseJobId, Js.split. rewrite split_by_single; [done|].
  eapply all_chars_impl; [|exact Ha]. intros c Hc.
  by rewrite (digit_not_underscore c Hc).
Qed.

Lemma baseJobId_task a b :
  all_chars Js.is_digit a = true → baseJobId (a +:+ "_" +:+ b) = a.
Proof.
  intros Ha. unfold baseJobId, Js.split.
  change (a +:+ "_" +:+ b) with (a +:+ String "_" b).
  rewrite split_by_app; [done| |done].
  eapply all_chars_impl; [|exact Ha]. intros c Hc.
  by rewrite (digit_not_underscore c Hc).
Qed.

Lemma submittedId_Returns what r id :
  submittedId what r = Returns id →
  success r = true ∧ digits_only id ∧
  ∃ before rest, stdout r = before +:+ "Submitted batch job " +:+ id +:+ rest.
Proof.
  unfold submittedId. destruct (success r); [|done]. simpl.
  destruct (Dump.first_match submitted_at (stdout r)) as [v|] eqn:Hm; [|done].
  intros [= ->]. apply first_match_Some in Hm as (before & rest & Hout & Hat).
  unfold submitted_at in Hat.
  destruct (after_prefix "Submitted batch job " rest) as [tail|] eqn:Hp; [|done].
  apply after_prefix_Some in Hp.
  pose proof (take_drop_while Js.is_digit tail) as Hsplit.
  pose proof (take_while_all_chars Js.is_digit tail) as Hall.
  destruct (Dump.take_while Js.is_digit tail) as [|d ds] eqn:Ed; [done|].
  injection Hat as <-. split_and!; [done|by split|].
  exists before, (Dump.drop_while Js.is_digit tail).
  by rewrite Hout, Hp, Hsplit.
Qed.

(** X6. The id that [submitJob] or [resubmitJob] returns is always a
    non-empty run of digits read off the words "Submitted batch job" in
    the output of a successful command; hence it passes the check on typed
    job ids and is its own base id. Any other output makes them throw. *)
Theorem submitted_id_valid (what : string) (r : CommandResult) :
  (∀ id, submittedId what r = Returns id →
     success r = true ∧ digits_only id ∧ validateInput id = None ∧ baseJobId id = id ∧
     ∃ before rest, stdout r = before +:+ "Submitted batch job " +:+ id +:+ rest) ∧
  (∀ message, submittedId what r = Throws message →
     message = "Failed to " +:+ what +:+ " job: " +:+ stderr r ∨
     message = "Unexpected sbatch output: " +:+ stdout r).
Proof.
  split.
  - intros id (Hok & Hd & Hout)%submittedId_Returns. split_and!; try done.
    + apply validateInput_digits. done.
    + apply baseJobId_digits. by destruct Hd.
  - unfold submittedId. destruct (success r); simpl.
    + destruct (Dump.first_match _ _); [done|]. intros message [= <-]. by right.
    + intros message [= <-]. by left.
Qed.

Lemma submitted_id_valid_witness :
  validateInput "4242" = None ∧ baseJobId "4242" = "4242".
Proof.
  destruct (proj1 (submitted_id_valid "submit"
              (executeCommand (Resolved "sbatch: Submitted batch job 4242 on cluster hpc" "")))
              "4242" eq_refl) as (_ & _ & Hv & Hb & _).
  by split.
Defined.

Lemma bind_split {A B} (f : A → list B) (l : list A) x :
  x ∈ l → ∃ l1 l2, l ≫= f = l1 ++ f x ++ l2.
Proof.
  intros (l1 & l2 & ->)%list_elem_of_split.
  exists (l1 ≫= f), (l2 ≫= f). by rewrite bind_app, bind_cons.
Qed.

(** X7. The command of [submitJob] begins with [sbatch] and ends with the
    script path, and every option that is given appears in it as its flag
    immediately followed by its value; an option that is not given leaves
    no trace, so that with the script path alone the command is [sbatch]
    and the path. *)
Theorem submitArgs_shape (o : SubmitOptions) :
  head (submitArgs o) = Some "sbatch" ∧
  last (submitArgs o) = Some (scriptPath o) ∧
  (∀ flag v, (flag, Some v) ∈ SUBMIT_OPTIONS o →
     ∃ front back, submitArgs o = front ++ [flag; v] ++ back) ∧
  (Forall (λ fv, fv.2 = None) (SUBMIT_OPTIONS o) → o_mailType o = None →
   o_additionalArgs o = None → submitCommand o = "sbatch " +:+ scriptPath o).
Proof.
  split_and!.
  - done.
  - unfold submitArgs. rewrite !app_assoc. apply last_snoc.
  - intros flag v Hin. unfold submitArgs.
    destruct (bind_split (λ fv : string * option string,
                match fv.2 with Some v => [fv.1; v] | None => [] end) _ _ Hin)
      as (l1 & l2 & ->). simpl.
    exists ("sbatch" :: l1). eexists. rewrite <- !app_assoc. simpl. reflexivity.
  - intros Hnone Hmail Hadd. unfold submitCommand, submitArgs. rewrite Hmail, Hadd.
    replace (SUBMIT_OPTIONS o ≫= _) with (@nil string); [done|].
    symmetry. induction Hnone as [|[flag v] l Hv _ IH]; [done|].
    rewrite bind_cons, IH. simpl in Hv. by rewrite Hv.
Qed.

Lemma submitArgs_shape_witness :
  let o := {| scriptPath := "/path/to/script.sh"; o_jobName := Some "test_job";
              o_partition := Some "gpu"; o_nodes := Some 2%Z; o_ntasks := None;
              o_cpusPerTask := Some 4%Z; o_memory := Some "16G"; o_time := Some "4:00:00";
              o_output := None; o_error := None; o_array := None; o_dependency := None;
              o_account := None; o_qos := None; o_gres := Some "gpu:2"; o_mail := None;
              o_mailType := None; o_workdir := None; o_additionalArgs := None |} in
  (∃ front back, submitArgs o = front ++ ["-N"; "2"] ++ back) ∧
  submitCommand o
  = "sbatch -J test_job -p gpu -N 2 -c 4 --mem 16G -t 4:00:00 --gres gpu:2 /path/to/script.sh".
Proof.
  intros o. split; [|reflexivity].
  apply (proj1 (proj2 (proj2 (submitArgs_shape o)))).
  apply (bool_decide_unpack _). by vm_compute.
Defined.

(** ** Resubmitting *)



(** ** The tree: nothing lost, nothing shown twice *)

Lemma bind_ext_in {A B} (f g : A → list B) (l : list A) :
  (∀ x, x ∈ l → f x = g x) → l ≫= f = l ≫= g.
Proof.
  induction l as [|x l IH]; [done|]. intros Hfg.
  rewrite !bind_cons, Hfg, IH; [done| |apply elem_of_cons; by left].
  intros y Hy. apply Hfg, elem_of_cons. by right.
Qed.

(** Adding [j] to the cluster of one of pairwise distinct ids adds [j] to
    the whole. *)
Lemma bind_add_one (f : string → list SlurmJob) (L : list string) id j :
  NoDup L → id ∈ L →
  (L ≫= λ i, f i ++ (if bool_decide (Some id = Some i) then [j] else [])) ≡ₚ (L ≫= f) ++ [j].
Proof.
  induction 1 as [|k L Hk Hnd IH]; [by intros ?%elem_of_nil|].
  intros Hin. rewrite !bind_cons. destruct (decide (k = id)) as [-> |Hne].
  - rewrite bool_decide_eq_true_2 by done.
    rewrite (bind_ext_in _ f L).
    + rewrite <- !app_assoc. apply Permutation_app_head. apply Permutation_app_comm.
    + intros i Hi. rewrite bool_decide_eq_false_2, app_nil_r; [done|].
      intros [= ->]. done.
  - rewrite bool_decide_eq_false_2, app_nil_r by congruence.
    apply elem_of_cons in Hin as [?|Hin]; [congruence|].
    rewrite (IH Hin). by rewrite app_assoc.
Qed.

Lemma clustered_snoc js j : clustered (js ++ [j]) ≡ₚ clustered js ++ [j].
Proof.
  unfold clustered. rewrite arrayIds_snoc, standalone_snoc.
  destruct (arrayIdOf j) as [id|] eqn:Hid.
  - rewrite (bool_decide_eq_false_2 (Some id = None)), app_nil_r by done.
    case_bool_decide as Hin.
    + rewrite (bind_ext_in _ (λ i, cluster i js ++
                 (if bool_decide (Some id = Some i) then [j] else []))).
      * rewrite bind_add_one; [|apply NoDup_firsts|done].
        rewrite <- !app_assoc. apply Permutation_app_head, Permutation_app_comm.
      * intros i _. by rewrite cluster_snoc, Hid.
    + rewrite bind_app, bind_cons. change (@nil string ≫= _) with (@nil SlurmJob).
      rewrite app_nil_r.
      rewrite (bind_ext_in _ (λ i, cluster i js)).
      * rewrite cluster_snoc, Hid, bool_decide_eq_true_2 by done.
        assert (cluster id js = []) as ->.
        { destruct (cluster id js) eqn:E; [done|].
          exfalso. apply Hin, cluster_nonempty. by rewrite E. }
        simpl. rewrite <- !app_assoc. apply Permutation_app_head, Permutation_app_comm.
      * intros i Hi. rewrite cluster_snoc, Hid, bool_decide_eq_false_2, app_nil_r; [done|].
        intros [= ->]. done.
  - rewrite (bool_decide_eq_true_2 (None = None)) by done.
    rewrite (bind_ext_in _ (λ i, cluster i js)).
    + by rewrite app_assoc.
    + intros i _. by rewrite cluster_snoc, Hid, bool_decide_eq_false_2, app_nil_r.
Qed.

Lemma clustered_Permutation js : clustered js ≡ₚ js.
Proof.
  induction js as [|j js IH] using rev_ind; [done|].
  by rewrite clustered_snoc, IH.
Qed.

Lemma getJobItems_Permutation p js : displayedJobs (getJobItems p js) ≡ₚ js.
Proof.
  rewrite displayedJobs_getJobItems. destruct (groupArrayJobs p); [|done].
  apply clustered_Permutation.
Qed.

(** X9. Whatever the array grouping, the job items built from a list of
    jobs show every job of the list exactly once, be it as an item of its
    own or as a task of an array parent: the jobs on display are a
    rearrangement of the list. *)
Theorem getJobItems_shows_all (p : SlurmJobsProvider) (js : list SlurmJob) :
  displayedJobs (getJobItems p js) ≡ₚ js.
Proof. apply getJobItems_Permutation. Qed.

(** ** Categories *)

(** The category items as a function of the per-state counts (the
    equation also stated for the grouping by state). *)
Lemma getCategoryItems_eq p :
  getCategoryItems p =
    ((λ s, {| cat_state := s; cat_count := length (inState s (jobs p)) |}) <$>
       List.filter (λ s, (0 <? length (inState s (jobs p)))%nat) order)
    ++ (if (0 <? length (inOtherStates (jobs p)))%nat
        then [{| cat_state := "OTHER"; cat_count := length (inOtherStates (jobs p)) |}]
        else []).
Proof.
  unfold getCategoryItems. cbv zeta. rewrite !getJobCounts_counts.
  pose proof (counts_sum (λ s, negb (bool_decide (s ∈ order))) (jobs p)) as Hsum.
  cbv beta in Hsum. rewrite Hsum. fold (inOtherStates (jobs p)).
  rewrite (map_filter_ext _
             (λ s, {| cat_state := s; cat_count := length (inState s (jobs p)) |}) _
             (λ s, (0 <? length (inState s (jobs p)))%nat) order).
  - by destruct (0 <? length (inOtherStates (jobs p)))%nat; rewrite ?app_nil_r.
  - intros s. rewrite counts_get. by destruct (length (inState s (jobs p))).
  - intros s. rewrite counts_get. by destruct (length (inState s (jobs p))).
Qed.

Lemma order_NoDup : NoDup order.
Proof. apply (bool_decide_unpack _). by vm_compute. Qed.

Lemma sum_list_cons (x : nat) (l : list nat) : sum_list (x :: l) = x + sum_list l.
Proof. done. Qed.

Lemma sum_list_append (l k : list nat) : sum_list (l ++ k) = sum_list l + sum_list k.
Proof. induction l as [|x l IH]; [done|]. rewrite <- app_comm_cons, !sum_list_cons, IH. lia. Qed.

Lemma sum_positive (f : string → nat) (L : list string) :
  sum_list (f <$> List.filter (λ s, (0 <? f s)%nat) L) = sum_list (f <$> L).
Proof.
  induction L as [|s L IH]; [done|].
  rewrite fmap_cons. cbn [List.filter sum_list].
  destruct (0 <? f s)%nat eqn:E.
  - rewrite fmap_cons. cbn [sum_list]. by rewrite IH.
  - rewrite IH. apply Nat.ltb_ge in E. unfold id. lia.
Qed.

Lemma sum_indicator (x : string) (L : list string) :
  NoDup L →
  sum_list ((λ s, if bool_decide (x = s) then 1 else 0) <$> L)
  = if bool_decide (x ∈ L) then 1 else 0.
Proof.
  induction 1 as [|s L Hs Hnd IH]; [done|].
  rewrite fmap_cons, sum_list_cons, IH.
  destruct (decide (x = s)) as [-> |Hne].
  - rewrite bool_decide_eq_true_2 by done.
    rewrite (bool_decide_eq_false_2 (s ∈ L)) by done.
    rewrite bool_decide_eq_true_2; [done|]. apply elem_of_cons. by left.
  - rewrite bool_decide_eq_false_2 by done. simpl.
    apply (f_equal (λ b : bool, if b then 1 else 0)).
    apply bool_decide_ext. rewrite elem_of_cons. split; [by right|]. by intros [?|?].
Qed.

(** Every job is in exactly one of the states of a duplicate-free list, or
    in none of them. *)
Lemma states_partition (L : list string) js :
  NoDup L →
  sum_list ((λ s, length (inState s js)) <$> L)
  + length (List.filter (λ j, negb (bool_decide (state j ∈ L))) js)
  = length js.
Proof.
  intros Hnd. induction js as [|j js IH].
  - cbn [List.filter length]. clear Hnd. induction L as [|s L IHL]; [done|].
    rewrite fmap_cons, sum_list_cons. unfold inState at 1. cbn [List.filter length].
    exact IHL.
  - cbn [List.filter length].
    assert (sum_list ((λ s, length (inState s (j :: js))) <$> L)
            = (if bool_decide (state j ∈ L) then 1 else 0)
              + sum_list ((λ s, length (inState s js)) <$> L)) as ->.
    { rewrite <- (sum_indicator (state j) L Hnd). clear IH.
      induction L as [|s L IHL]; [done|]. apply NoDup_cons in Hnd as [_ Hnd].
      rewrite !fmap_cons, !sum_list_cons, (IHL Hnd).
      unfold inState at 1. cbn [List.filter]. fold (inState s js).
      destruct (bool_decide (state j = s)); simpl; lia. }
    destruct (bool_decide (state j ∈ L)); simpl; lia.
Qed.

(** X10. The counts on the category items add up to the number of jobs:
    every job is counted under exactly one category. *)
Theorem category_counts_total (p : SlurmJobsProvider) :
  sum_list (cat_count <$> getCategoryItems p) = length (jobs p).
Proof.
  rewrite getCategoryItems_eq, fmap_app, sum_list_append, <- list_fmap_compose.
  change (cat_count ∘ _) with (λ s, length (inState s (jobs p))).
  rewrite (sum_positive (λ s, length (inState s (jobs p)))).
  rewrite <- (states_partition order (jobs p) order_NoDup). f_equal.
  fold (inOtherStates (jobs p)).
  destruct (0 <? length (inOtherStates (jobs p)))%nat eqn:E; simpl; [lia|].
  apply Nat.ltb_ge in E. lia.
Qed.

Lemma elem_of_getCategoryItems p c :
  c ∈ getCategoryItems p →
  (cat_state c ∈ order ∧ cat_count c = length (inState (cat_state c) (jobs p))) ∨
  (cat_state c = "OTHER" ∧ cat_count c = length (inOtherStates (jobs p))).
Proof.
  rewrite getCategoryItems_eq. intros [Hc|Hc]%elem_of_app.
  - left. apply list_elem_of_fmap in Hc as (s & -> & Hs). simpl.
    apply list_elem_of_In, List.filter_In in Hs as [Hs _].
    by apply list_elem_of_In in Hs.
  - right. destruct (0 <? _)%nat; [|by apply elem_of_nil in Hc].
    by apply list_elem_of_singleton in Hc as ->.
Qed.

Lemma elem_of_inState s js j : j ∈ inState s js ↔ j ∈ js ∧ state j = s.
Proof.
  unfold inState. rewrite !list_elem_of_In, List.filter_In, bool_decide_eq_true. done.
Qed.

Lemma getChildren_category p c :
  isLoading p = false → lastError p = None →
  getChildren p (Some (CategoryNode c))
  = JobNode <$> getJobItems p (inState (cat_state c) (jobs p)).
Proof. intros Hl He. unfold getChildren. by rewrite Hl, He. Qed.

(** X11. Under each of the seven named categories the tree shows as many
    jobs as the category announces, all of them in the state of the
    category. Under OTHER it shows only the jobs whose state is literally
    "OTHER": a job in any further state is counted under OTHER and shown
    under no category at all. *)
Theorem category_children (p : SlurmJobsProvider) (c : CategoryTreeItem) :
  isLoading p = false → lastError p = None → c ∈ getCategoryItems p →
  ∃ items,
    getChildren p (Some (CategoryNode c)) = JobNode <$> items ∧
    displayedJobs items ≡ₚ inState (cat_state c) (jobs p) ∧
    (cat_state c ≠ "OTHER" → length (displayedJobs items) = cat_count c) ∧
    (∀ j, j ∈ jobs p → state j ∉ order → state j ≠ "OTHER" →
       (j ∉ displayedJobs items) ∧
       ∃ other, other ∈ getCategoryItems p ∧ cat_state other = "OTHER" ∧ 0 < cat_count other).
Proof.
  intros Hl He Hc. exists (getJobItems p (inState (cat_state c) (jobs p))).
  pose proof (getJobItems_Permutation p (inState (cat_state c) (jobs p))) as Hperm.
  split_and!; [by apply getChildren_category|done| |].
  - intros Hother. rewrite Hperm.
    apply elem_of_getCategoryItems in Hc as [[_ ->]|[? _]]; done.
  - intros j Hj Hnot Hno. split.
    + rewrite Hperm. intros [_ Hst]%elem_of_inState.
      apply elem_of_getCategoryItems in Hc as [[Hin _]|[Hc _]]; congruence.
    + assert (j ∈ inOtherStates (jobs p)) as Hin.
      { unfold inOtherStates. apply list_elem_of_In, List.filter_In.
        split; [by apply list_elem_of_In|]. by rewrite bool_decide_eq_false_2. }
      assert (0 < length (inOtherStates (jobs p))) as Hpos.
      { destruct (inOtherStates (jobs p)); [by apply elem_of_nil in Hin|simpl; lia]. }
      exists {| cat_state := "OTHER"; cat_count := length (inOtherStates (jobs p)) |}.
      split_and!; [|done|done]. rewrite getCategoryItems_eq. apply elem_of_app. right.
      rewrite (proj2 (Nat.ltb_lt _ _) Hpos). by apply list_elem_of_singleton.
Qed.

Lemma category_children_witness :
  let held := mockJob "7" "sim" "SUSPENDED" in
  let run := mockJob "8" "train" "RUNNING" in
  let p := loaded true false [held; run] in
  ∃ items,
    getChildren p (Some (CategoryNode {| cat_state := "OTHER"; cat_count := 1 |}))
    = JobNode <$> items ∧
    held ∉ displayedJobs items.
Proof.
  intros held run p.
  destruct (category_children p {| cat_state := "OTHER"; cat_count := 1 |})
    as (items & Hitems & _ & _ & Hhidden); [reflexivity|reflexivity| |].
  - assert (getCategoryItems p
            = [{| cat_state := "RUNNING"; cat_count := 1 |};
               {| cat_state := "OTHER"; cat_count := 1 |}]) as -> by (by vm_compute).
    apply elem_of_cons. right. apply elem_of_cons. by left.
  - exists items. split; [exact Hitems|].
    apply (Hhidden held).
    + apply (bool_decide_unpack _). by vm_compute.
    + apply (bool_decide_unpack _). by vm_compute.
    + discriminate.
Defined.

(** X12. While a refresh awaits the service, every node of the tree shows the
    single item "Loading...". After a refresh that failed with a non-empty
    message every node shows the single item "Error: <message>"; when the
    message is empty no error is shown and the root reads "No jobs found". *)
Theorem getChildren_messages (svc : SlurmService) (p : SlurmJobsProvider)
    (message : string) (element : option TreeItem) :
  fetch svc (refresh_begin p) = Throws message →
  getChildren (refresh_begin p) element = [MessageItem "Loading..." "loading~spin"] ∧
  (message ≠ "" →
     getChildren (refresh svc p) element = [MessageItem ("Error: " +:+ message) "error"]) ∧
  (message = "" →
     getChildren (refresh svc p) None = [MessageItem "No jobs found" "info"]).
Proof.
  intros Hfetch. split_and!.
  - done.
  - intros Hne. unfold refresh. cbv zeta. rewrite Hfetch. unfold getChildren. simpl.
    by destruct message.
  - intros ->. unfold refresh. cbv zeta. by rewrite Hfetch.
Qed.

Lemma getChildren_messages_witness :
  let svc := {| svc_getJobs := λ _, Throws "Connection refused";
                svc_getMyJobs := λ _, Throws "Connection refused" |} in
  let p := loaded true true [mockJob "8" "train" "RUNNING"] in
  getChildren (refresh svc p) (Some (CategoryNode {| cat_state := "RUNNING"; cat_count := 1 |}))
  = [MessageItem "Error: Connection refused" "error"].
Proof.
  intros svc p.
  apply (getChildren_messages svc p "Connection refused"); [reflexivity|discriminate].
Defined.

(** X13. The context value of a job item is one of five strings, and it is
    one of "array-job-cancellable", "job-running" and "job-pending" exactly
    when a job the item stands for (the job itself, or a task of the array)
    is running or pending. *)
Theorem getContextValue_values (i : JobTreeItem) :
  getContextValue i ∈ ["array-job-cancellable"; "array-job"; "job-running"; "job-pending"; "job"] ∧
  cancellable (getContextValue i) = existsb isActive (itemJobs i).
Proof.
  unfold getContextValue, itemJobs, cancellable.
  destruct (isArrayParent i).
  - destruct (existsb isActive (arrayTasks i)); split;
      try (apply (bool_decide_unpack _); by vm_compute); by vm_compute.
  - simpl existsb. rewrite orb_false_r. unfold isActive.
    case_bool_decide as Hr; [rewrite Hr|case_bool_decide as Hp; [rewrite Hp|]]; simpl;
      split; try (apply (bool_decide_unpack _); by vm_compute); by vm_compute.
Qed.

(** ** Escaping for the web views *)














(** ** Failure warnings and the table of states *)

Lemma entryOf_jobId id js j : entryOf id js = Some j → jobId j = id.
Proof.
  unfold entryOf. intros Hlast.
  assert (j ∈ List.filter (λ j, bool_decide (jobId j = id)) js) as Hin.
  { apply last_Some in Hlast as [l ->]. apply elem_of_app. right. by apply list_elem_of_singleton. }
  apply list_elem_of_In, List.filter_In in Hin as [_ Hid]. by apply bool_decide_eq_true in Hid.
Qed.

Lemma warning_filter cfg prev j id :
  List.filter (isFailedOf id) (warning cfg prev j)
  = if bool_decide (jobId j = id) then warning cfg prev j else [].
Proof.
  unfold warning. case_bool_decide as Hid;
    (destruct (notifyOnFail cfg && isFailure (state j)); [|done]);
    (destruct prev as [[|c s]|]; [done| |done]);
    (destruct (bool_decide (String c s ≠ state j)); [|done]); simpl.
  - by rewrite bool_decide_eq_true_2.
  - by rewrite bool_decide_eq_false_2.
Qed.

(** With every id listed once, the warnings of the last loop for an id
    depend only on its job and on the table before the pass. *)
Lemma failStep_loop_filter cfg table js id :
  NoDup (jobId <$> js) →
  List.filter (isFailedOf id) (foldl (failStep cfg) ([], table) js).1 =
    match entryOf id js with
    | Some j => warning cfg (table !! id) j
    | None => []
    end.
Proof.
  induction js as [|j js IH] using rev_ind; [done|].
  rewrite fmap_app, NoDup_app. intros (Hnd & Hfresh & _).
  assert (jobId j ∉ jobId <$> js) as Hj.
  { intros Hin. apply (Hfresh _ Hin). simpl. apply elem_of_cons. by left. }
  rewrite failStep_loop_snoc, entryOf_snoc.
  unfold failStep at 1. cbv zeta. cbn [fst snd].
  rewrite failStep_loop_table, (proj2 (entryOf_None _ _) Hj).
  fold (warning cfg (table !! jobId j) j).
  rewrite List.filter_app, warning_filter, (IH Hnd).
  case_bool_decide as Hid.
  - subst id. by rewrite (proj2 (entryOf_None _ _) Hj).
  - by rewrite app_nil_r.
Qed.

(** The failure warnings of one pass that concern [id]. *)
Lemma failed_of_pass cfg table oldJobs newJobs id :
  enableNotifications cfg = true → NoDup (jobId <$> newJobs) →
  List.filter (isFailedOf id) (checkJobStateChanges cfg table oldJobs newJobs).1 =
    match entryOf id newJobs with
    | Some j => warning cfg (table !! id) j
    | None => []
    end.
Proof.
  intros He Hnd. rewrite checkJobStateChanges_enabled by done. simpl.
  rewrite !List.filter_app.
  assert (List.filter (isFailedOf id)
            (jobMap newJobs ≫= startedStep cfg table (jobMap oldJobs)) = []) as ->.
  { apply filter_none. by intros b (a & nm & ->)%started_loop_elem. }
  assert (List.filter (isFailedOf id)
            (jobMap oldJobs ≫= completedStep cfg (jobMap newJobs)) = []) as ->.
  { apply filter_none. by intros b (a & nm & ->)%completed_loop_elem. }
  simpl. by apply failStep_loop_filter.
Qed.

(** X15. Failure warnings, with notifications and [notifyOnFail] on and
    every id listed once. A job listed as failed, timed out, out of memory
    or lost with its node is warned about once when the table of states
    has its id under another, non-empty state; it is not warned about when
    the table does not have its id, as for a job first seen in its failed
    state; and it is not warned about again in the next pass while its
    state stays the same. *)
Theorem failure_warnings (cfg : SlurmConfig) (table : gmap string string)
    (oldJobs newJobs : list SlurmJob) (id : string) (j : SlurmJob) :
  enableNotifications cfg = true → notifyOnFail cfg = true →
  NoDup (jobId <$> newJobs) → entryOf id newJobs = Some j → isFailure (state j) = true →
  let pass := checkJobStateChanges cfg table oldJobs newJobs in
  (∀ prev, table !! id = Some prev → prev ≠ "" → prev ≠ state j →
     List.filter (isFailedOf id) pass.1 = [Failed id (name j) (state j)]) ∧
  (table !! id = None → List.filter (isFailedOf id) pass.1 = []) ∧
  (∀ later j', NoDup (jobId <$> later) → entryOf id later = Some j' → state j' = state j →
     List.filter (isFailedOf id) (checkJobStateChanges cfg pass.2 newJobs later).1 = []).
Proof.
  intros He Hf Hnd Hentry Hfail pass. subst pass.
  pose proof (entryOf_jobId _ _ _ Hentry) as Hid. split_and!.
  - intros prev Hprev Hne Hdiff. rewrite failed_of_pass, Hentry, Hprev by done.
    unfold warning. rewrite Hf, Hfail. simpl. destruct prev as [|c s]; [done|].
    by rewrite bool_decide_eq_true_2, Hid.
  - intros Hnone. rewrite failed_of_pass, Hentry, Hnone by done.
    unfold warning. by destruct (_ && _).
  - intros later j' Hnd' Hentry' Hsame.
    rewrite failed_of_pass, Hentry' by done.
    rewrite (table_after_pass cfg table oldJobs newJobs id j He Hentry).
    unfold warning. rewrite Hsame. destruct (_ && _); [|done].
    destruct (state j) as [|c s]; [done|]. by rewrite bool_decide_eq_false_2 by (intros ?; done).
Qed.

Lemma failure_warnings_witness :
  let failed := mockJob "4711" "train" "FAILED" in
  List.filter (isFailedOf "4711")
    (checkJobStateChanges defaultConfig {["4711" := "RUNNING"]} [] [failed]).1
  = [Failed "4711" "train" "FAILED"] ∧
  List.filter (isFailedOf "4711") (checkJobStateChanges defaultConfig ∅ [] [failed]).1 = [].
Proof.
  intros failed. split.
  - destruct (failure_warnings defaultConfig {["4711" := "RUNNING"]} [] [failed] "4711" failed)
      as (Hwarned & _ & _); [reflexivity|reflexivity| |reflexivity|reflexivity|].
    + apply (bool_decide_unpack _). by vm_compute.
    + apply (Hwarned "RUNNING"); [reflexivity|discriminate|discriminate].
  - destruct (failure_warnings defaultConfig ∅ [] [failed] "4711" failed)
      as (_ & Hquiet & _); [reflexivity|reflexivity| |reflexivity|reflexivity|].
    + apply (bool_decide_unpack _). by vm_compute.
    + apply Hquiet. reflexivity.
Defined.

(** X16. The table of states after a pass. With notifications disabled the
    pass leaves the table as it was. With notifications enabled the table
    has every listed id under the state of its last entry in the list and
    every other id as before. Either way no id is ever dropped from the
    table, whether or not its job is still listed. *)
Theorem previousJobStates_kept (cfg : SlurmConfig) (table : gmap string string)
    (oldJobs newJobs : list SlurmJob) (id : string) :
  let table' := (checkJobStateChanges cfg table oldJobs newJobs).2 in
  (enableNotifications cfg = false → table' = table) ∧
  (enableNotifications cfg = true →
     table' !! id = match entryOf id newJobs with
                    | Some j => Some (state j)
                    | None => table !! id
                    end) ∧
  (is_Some (table !! id) → is_Some (table' !! id)).
Proof.
  intros table'. subst table'.
  assert (enableNotifications cfg = true →
          (checkJobStateChanges cfg table oldJobs newJobs).2 !! id
          = match entryOf id newJobs with
            | Some j => Some (state j)
            | None => table !! id
            end) as Henabled.
  { intros He. rewrite checkJobStateChanges_enabled by done. apply failStep_loop_table. }
  split_and!.
  - intros He. by rewrite checkJobStateChanges_disabled.
  - done.
  - intros Hsome. destruct (enableNotifications cfg) eqn:He.
    + rewrite Henabled by done. by destruct (entryOf id newJobs).
    + by rewrite checkJobStateChanges_disabled.
Qed.

Lemma previousJobStates_kept_witness :
  let gone := mockJob "4711" "train" "RUNNING" in
  (checkJobStateChanges defaultConfig {["4711" := "RUNNING"]} [gone] []).2 !! "4711"
  = Some "RUNNING".
Proof.
  intros gone.
  destruct (previousJobStates_kept defaultConfig {["4711" := "RUNNING"]} [gone] [] "4711")
    as (_ & Hlisted & _).
  rewrite Hlisted; reflexivity.
Defined.

(** ** The queue listing with a name filter or a negative limit *)

Lemma slice0_sublist {A} n (l : list A) : Js.slice0 n l `sublist_of` l.
Proof. unfold Js.slice0. destruct (n <? 0)%Z; apply sublist_take. Qed.

Lemma slice0_length {A} n (l : list A) :
  (0 ≤ n)%Z → length (Js.slice0 n l) ≤ Z.to_nat n.
Proof. intros Hn. rewrite slice0_nonneg, length_take by done. lia. Qed.

(** X17. [getJobs] with a name in the filter, on a command that succeeded.
    If the pattern does not compile the error of the compiler is thrown.
    Otherwise the jobs returned all have a matching name, are among the
    jobs parsed from the well-formed lines, in the order of the lines, and
    are at most [maxJobsDisplayed] when that is not negative: the limit
    applies after the filter. *)
Theorem getJobs_name_filter (RegExp_i : string → outcome (string → bool))
    (cfg : SlurmConfig) (f : JobFilter) (pat : string) (r : CommandResult) :
  success r = true → f_name f = Some pat → pat ≠ "" →
  match RegExp_i pat with
  | Throws msg =>
      stdout r ≠ "" → getJobs RegExp_i cfg (Some f) r = Throws msg
  | Returns test =>
      ∃ js, getJobs RegExp_i cfg (Some f) r = Returns js ∧
            Forall (λ j, test (name j) = true) js ∧
            js `sublist_of` (parseSqueueLine <$> List.filter well_formed (Js.split LF (stdout r))) ∧
            ((0 ≤ maxJobsDisplayed cfg)%Z → (Z.of_nat (length js) ≤ maxJobsDisplayed cfg)%Z)
  end.
Proof.
  intros Hok Hname Hpat. destruct pat as [|c s]; [done|].
  unfold getJobs. rewrite Hok. simpl. rewrite Hname.
  destruct (RegExp_i (String c s)) as [test|msg].
  - destruct (Js.truthy (stdout r)); simpl.
    + eexists. split; [done|]. split_and!.
      * apply Forall_forall. intros j Hj.
        eapply elem_of_sublist in Hj; [|apply slice0_sublist].
        by apply list_elem_of_In, List.filter_In in Hj as [_ ?].
      * etrans; [apply slice0_sublist|apply filter_sublist].
      * intros Hmax. pose proof (slice0_length (maxJobsDisplayed cfg)
          (List.filter (λ j, test (name j))
             (parseSqueueLine <$> List.filter well_formed (Js.split LF (stdout r)))) Hmax). lia.
    + exists []. split_and!; [done|done|apply sublist_nil_l|simpl; lia].
  - intros Hout. by destruct (stdout r).
Qed.

Lemma getJobs_name_filter_witness :
  ∃ js, getJobs literalRegExp defaultConfig (Some (byName "job"))
          (executeCommand (Resolved ("12345|my_job|gpu|R|1:30:00|4:00:00|1|node01|a|b" +:+ nl +:+
                                     "12346|train|cpu|PD|0:00|2:00:00|2|Priority|N/A|N/A") ""))
        = Returns js ∧ Forall (λ j, Js.includes "job" (name j) = true) js.
Proof.
  pose proof (getJobs_name_filter literalRegExp defaultConfig (byName "job") "job"
                (executeCommand (Resolved ("12345|my_job|gpu|R|1:30:00|4:00:00|1|node01|a|b" +:+ nl +:+
                                     "12346|train|cpu|PD|0:00|2:00:00|2|Priority|N/A|N/A") "")))
    as H.
  destruct H as (js & Hjs & Hall & _); [reflexivity|reflexivity|discriminate|].
  exists js. split; [exact Hjs|exact Hall].
Defined.

(** X18. With a negative [maxJobsDisplayed] the limit counts from the end
    of the listing: [getJobs] without a filter leaves out the jobs of the
    last [-maxJobsDisplayed] well-formed lines and returns the others, and
    nothing when there are no more lines than that. *)
Theorem getJobs_negative_limit (RegExp_i : string → outcome (string → bool))
    (cfg : SlurmConfig) (ls : list string) (r : CommandResult) :
  success r = true → stdout r = Js.join nl ls →
  Forall (λ l, Js.includes_char LF l = false) ls →
  (maxJobsDisplayed cfg < 0)%Z →
  let wf := List.filter well_formed ls in
  let hidden := Z.to_nat (- maxJobsDisplayed cfg) in
  getJobs RegExp_i cfg None r = Returns (parseSqueueLine <$> take (length wf - hidden) wf) ∧
  (length wf ≤ hidden → getJobs RegExp_i cfg None r = Returns []).
Proof.
  intros Hok Hout Hlf Hmax wf hidden.
  assert (getJobs RegExp_i cfg None r
          = Returns (parseSqueueLine <$> take (length wf - hidden) wf)) as Heq.
  { rewrite (getJobs_lines _ cfg ls r Hok Hout Hlf). unfold Js.slice0.
    rewrite (proj2 (Z.ltb_lt _ _) Hmax), length_fmap, <- fmap_take. fold wf.
    do 3 f_equal. subst hidden. lia. }
  split; [done|]. intros Hfew. rewrite Heq.
  by replace (length wf - hidden) with 0 by lia.
Qed.

Lemma getJobs_negative_limit_witness :
  getJobs noRegExp (withLimit (-1)) None
    (executeCommand (Resolved "12345|my_job|gpu|R|1:30:00|4:00:00|1|node01|a|b" ""))
  = Returns [].
Proof.
  apply (getJobs_negative_limit noRegExp _
           ["12345|my_job|gpu|R|1:30:00|4:00:00|1|node01|a|b"]);
    [reflexivity|reflexivity|repeat constructor|reflexivity|vm_compute; lia].
Defined.

(** ** The fields of listed jobs *)

Lemma split_by_pieces p s :
  Forall (λ x, all_chars (λ a, negb (p a)) x = true) (Js.split_by p s).
Proof.
  induction s as [|c s IH]; [by repeat constructor|].
  rewrite split_cons_inv. destruct (p c) eqn:Hc; [by constructor|].
  destruct (Js.split_by p s) as [|h t]; [constructor; [simpl; by rewrite Hc|done]|].
  apply Forall_cons in IH as [Hh Ht]. constructor; [|done]. simpl. by rewrite Hc, Hh.
Qed.

Lemma split_by_keeps q p s :
  all_chars q s = true → Forall (λ x, all_chars q x = true) (Js.split_by p s).
Proof.
  induction s as [|c s IH]; [by repeat constructor|].
  simpl all_chars. intros [Hc Hs]%andb_true_iff. specialize (IH Hs).
  rewrite split_cons_inv. destruct (p c); [by constructor|].
  destruct (Js.split_by p s) as [|h t]; [constructor; [simpl; by rewrite Hc|done]|].
  apply Forall_cons in IH as [Hh Ht]. constructor; [|done]. simpl. by rewrite Hc, Hh.
Qed.

Lemma trim_start_keeps q s : all_chars q s = true → all_chars q (Js.trim_start s) = true.
Proof.
  induction s as [|c s IH]; [done|]. simpl. intros [Hc Hs]%andb_true_iff.
  destruct (Js.is_space c); [by apply IH|]. simpl. by rewrite Hc, Hs.
Qed.

Lemma trim_end_keeps q s : all_chars q s = true → all_chars q (Js.trim_end s) = true.
Proof.
  induction s as [|c s IH]; [done|]. simpl. intros [Hc Hs]%andb_true_iff.
  specialize (IH Hs). destruct (Js.trim_end s) as [|d r].
  - destruct (Js.is_space c); [done|]. simpl. by rewrite Hc.
  - simpl in *. by rewrite Hc, IH.
Qed.

Lemma trim_keeps q s : all_chars q s = true → all_chars q (Js.trim s) = true.
Proof. intros Hs. by apply trim_end_keeps, trim_start_keeps. Qed.

Lemma field_clean l i :
  Js.includes_char LF l = false → clean (field (Js.split "|" l) i).
Proof.
  intros Hlf. unfold field.
  destruct (Js.split "|" l !! i) as [x|] eqn:Hx; [|done]. simpl.
  destruct (Js.trim x) as [|c t] eqn:Ht; [done|]. simpl. rewrite <- Ht.
  apply list_elem_of_lookup_2 in Hx.
  split_and!; [apply trim_idem| |].
  - apply includes_char_false, trim_keeps.
    by apply (proj1 (Forall_forall _ _) (split_by_pieces (Js.eqc "|") l)).
  - apply includes_char_false, trim_keeps. apply includes_char_false in Hlf.
    by apply (proj1 (Forall_forall _ _) (split_by_keeps _ (Js.eqc "|") l Hlf)).
Qed.

Lemma getJobs_sublist RegExp_i cfg filter r js :
  getJobs RegExp_i cfg filter r = Returns js →
  js `sublist_of` (parseSqueueLine <$> List.filter well_formed (Js.split LF (stdout r))).
Proof.
  unfold getJobs. destruct (negb (success r)); [done|].
  destruct (negb (Js.truthy (stdout r))); [intros [= <-]; apply sublist_nil_l|].
  cbv zeta. destruct (filter ≫= f_name) as [[|c s]|].
  - intros [= <-]. apply slice0_sublist.
  - destruct (RegExp_i (String c s)) as [test|]; [|done].
    intros [= <-]. etrans; [apply slice0_sublist|apply filter_sublist].
  - intros [= <-]. apply slice0_sublist.
Qed.

(** X19. Whatever the filter, every job that [getJobs] or [getMyJobs]
    returns has come clean out of the listing: each of its text columns is
    trimmed and holds neither a column separator nor a line feed, and its
    state is the normal form of its raw state. *)
Theorem getJobs_fields_clean (RegExp_i : string → outcome (string → bool))
    (me : string) (cfg : SlurmConfig) (filter : option JobFilter)
    (r : CommandResult) (js : list SlurmJob) (j : SlurmJob) :
  getJobs RegExp_i cfg filter r = Returns js ∨
  getMyJobs RegExp_i me cfg filter r = Returns js →
  j ∈ js →
  Forall clean (textFields j) ∧ state j = parseJobState (stateRaw j).
Proof.
  intros Hjs Hj.
  assert (js `sublist_of` (parseSqueueLine <$> List.filter well_formed (Js.split LF (stdout r))))
    as Hsub.
  { destruct Hjs as [Hjs|Hjs]; by eapply getJobs_sublist. }
  eapply elem_of_sublist in Hj; [|done].
  apply list_elem_of_fmap in Hj as (l & -> & Hl).
  apply list_elem_of_In, List.filter_In in Hl as [Hl _]. apply list_elem_of_In in Hl.
  assert (Js.includes_char LF l = false) as Hlf.
  { apply includes_char_false.
    by apply (proj1 (Forall_forall _ _) (split_by_pieces (Js.eqc LF) (stdout r))). }
  split; [|done]. unfold textFields, parseSqueueLine. simpl.
  repeat (constructor; [by apply field_clean|]). constructor.
Qed.

Lemma getJobs_fields_clean_witness :
  ∃ j, getJobs noRegExp defaultConfig None
         (executeCommand (Resolved "12345 | my job |gpu|R|1:30:00" ""))
       = Returns [j] ∧ name j = "my job" ∧ clean (name j).
Proof.
  eexists. split; [reflexivity|]. split; [reflexivity|].
  destruct (getJobs_fields_clean noRegExp "" defaultConfig None
              (executeCommand (Resolved "12345 | my job |gpu|R|1:30:00" ""))
              [parseSqueueLine "12345 | my job |gpu|R|1:30:00"]
              (parseSqueueLine "12345 | my job |gpu|R|1:30:00")) as [Hclean _].
  - left. reflexivity.
  - apply elem_of_cons. by left.
  - apply Forall_cons in Hclean as [_ Hclean]. by apply Forall_cons in Hclean as [Hname _].
Defined.

(** ** Accounting rows *)

Lemma col_separators l i :
  Js.includes_char LF l = false →
  Js.includes_char "|" (col (Js.split "|" l) i) = false ∧
  Js.includes_char LF (col (Js.split "|" l) i) = false.
Proof.
  intros Hlf. unfold col.
  destruct (Js.split "|" l !! i) as [x|] eqn:Hx; [|done]. simpl.
  apply list_elem_of_lookup_2 in Hx. split.
  - apply includes_char_false.
    by apply (proj1 (Forall_forall _ _) (split_by_pieces (Js.eqc "|") l)).
  - apply includes_char_false. apply includes_char_false in Hlf.
    by apply (proj1 (Forall_forall _ _) (split_by_keeps _ (Js.eqc "|") l Hlf)).
Qed.

(** X20. [getJobAccounting] on a command that succeeded returns at most one
    job per line of output, and never a job step: no id it returns holds a
    dot. The columns are taken as they stand, untrimmed, and hold neither
    a column separator nor a line feed; the state is the normal form of
    the raw state. *)
Theorem getJobAccounting_rows (r : CommandResult) :
  success r = true →
  ∃ js, getJobAccounting r = Returns js ∧
        length js ≤ length (Js.split LF (stdout r)) ∧
        Forall (λ j,
                  Js.includes_char "." (jobId j) = false ∧
                  Forall (λ s, Js.includes_char "|" s = false ∧ Js.includes_char LF s = false)
                    (textFields j) ∧
                  state j = parseJobState (stateRaw j) ∧
                  ∃ l, l ∈ Js.split LF (stdout r) ∧
                       Js.split "|" l !! 0%nat = Some (jobId j)) js.
Proof.
  intros Hok. unfold getJobAccounting. rewrite Hok. simpl. eexists. split; [done|]. split.
  - rewrite length_fmap. apply sublist_length, filter_sublist.
  - apply Forall_forall. intros j (l & -> & Hl)%list_elem_of_fmap.
    apply list_elem_of_In, List.filter_In in Hl as [Hl Hrow]. apply list_elem_of_In in Hl.
    assert (Js.includes_char LF l = false) as Hlf.
    { apply includes_char_false.
      by apply (proj1 (Forall_forall _ _) (split_by_pieces (Js.eqc LF) (stdout r))). }
    unfold accountingRow in Hrow. apply andb_true_iff in Hrow as [Hlen Hdot].
    apply negb_true_iff in Hdot. apply Nat.leb_le in Hlen.
    split_and!; [done| |done|].
    + unfold textFields, parseSacctLine. simpl.
      repeat (constructor; [by apply col_separators|]). constructor.
    + exists l. split; [done|]. unfold parseSacctLine, col. simpl.
      destruct (Js.split "|" l) as [|x f]; [simpl in Hlen; lia|done].
Qed.

Lemma getJobAccounting_rows_witness :
  ∃ js, getJobAccounting
          (executeCommand
             (Resolved ("12345|train|gpu|COMPLETED|01:00:00|02:00:00|1|node01|a|b|0:0" +:+ nl +:+
                        "12345.batch|batch||COMPLETED|01:00:00||1|node01|a|b|0:0") ""))
        = Returns js ∧ length js ≤ 2 ∧
        Forall (λ j, Js.includes_char "." (jobId j) = false) js.
Proof.
  destruct (getJobAccounting_rows
              (executeCommand
                 (Resolved ("12345|train|gpu|COMPLETED|01:00:00|02:00:00|1|node01|a|b|0:0" +:+ nl +:+
                            "12345.batch|batch||COMPLETED|01:00:00||1|node01|a|b|0:0") "")))
    as (js & Hjs & Hlen & Hall); [reflexivity|].
  exists js. split; [exact Hjs|]. split; [exact Hlen|].
  eapply Forall_impl; [exact Hall|]. by intros j [? _].
Defined.

(** ** The accessors of the detailed dump *)




Lemma fold_case_refl a : Js.eqc (Dump.fold_case a) (Dump.fold_case a) = true.
Proof. apply eqc_refl. Qed.







(** ** A refresh that fails *)

Lemma jobMap_distinct js :
  NoDup (jobId <$> js) → jobMap js = (λ j, (jobId j, j)) <$> js.
Proof.
  induction js as [|j js IH] using rev_ind; [done|].
  rewrite fmap_app, NoDup_app. intros (Hnd & Hfresh & _).
  rewrite jobMap_snoc, (IH Hnd), fmap_app. apply set_new.
  rewrite <- list_fmap_compose. intros Hin. apply (Hfresh _ Hin).
  simpl. apply elem_of_cons. by left.
Qed.

Lemma completed_all cfg js :
  notifyOnComplete cfg = true →
  ((λ j, (jobId j, j)) <$> js) ≫= completedStep cfg (jobMap [])
  = (λ j, Completed (jobId j) (name j)) <$>
      List.filter (λ j, bool_decide (state j = "RUNNING")
                        || bool_decide (state j = "COMPLETING")) js.
Proof.
  intros Hc. induction js as [|j js IH]; [done|].
  rewrite fmap_cons, bind_cons, IH. unfold completedStep at 1. rewrite Hc.
  cbn [List.filter fst snd JsMap.has JsMap.get jobMap negb andb].
  change (JsMap.has (jobId j) (jobMap [])) with false. cbn [negb].
  by destruct (bool_decide (state j = "RUNNING") || bool_decide (state j = "COMPLETING")).
Qed.

(** X23. A refresh that fails looks like an emptied queue. With
    notifications and [notifyOnComplete] on and every id listed once, the
    pass after the failed refresh announces as completed every job that
    was RUNNING or COMPLETING, in the order of the list, and nothing else;
    the table of states stays as it was, and the status bar reads
    "No jobs". *)
Theorem failed_refresh_announces (cfg : SlurmConfig) (svc : SlurmService)
    (p : SlurmJobsProvider) (table : gmap string string) (message : string) :
  fetch svc p = Throws message →
  enableNotifications cfg = true → notifyOnComplete cfg = true →
  NoDup (jobId <$> jobs p) →
  refreshJobs cfg svc (p, table)
  = (refresh svc p, table,
     (λ j, Completed (jobId j) (name j)) <$>
       List.filter (λ j, bool_decide (state j = "RUNNING")
                         || bool_decide (state j = "COMPLETING")) (jobs p)) ∧
  statusText (jobs (refresh svc p)) = "$(server-process) SLURM: No jobs".
Proof.
  intros Hfetch He Hc Hnd.
  assert (jobs (refresh svc p) = []) as Hjobs.
  { unfold refresh. by rewrite fetch_refresh_begin, Hfetch. }
  split; [|by rewrite Hjobs].
  unfold refreshJobs. cbn [fst snd]. rewrite Hjobs.
  rewrite checkJobStateChanges_enabled by done.
  rewrite (jobMap_distinct _ Hnd), (completed_all cfg _ Hc).
  cbn [foldl fst snd]. by rewrite app_nil_r.
Qed.

Lemma failed_refresh_announces_witness :
  let svc := {| svc_getJobs := λ _, Throws "Connection refused";
                svc_getMyJobs := λ _, Throws "Connection refused" |} in
  let p := loaded true true [mockJob "8" "train" "RUNNING"; mockJob "9" "sim" "PENDING"] in
  (refreshJobs defaultConfig svc (p, ∅)).2 = [Completed "8" "train"].
Proof.
  intros svc p.
  destruct (failed_refresh_announces defaultConfig svc p ∅ "Connection refused")
    as [-> _]; [reflexivity|reflexivity|reflexivity| |reflexivity].
  apply (bool_decide_unpack _). by vm_compute.
Defined.

(** ** Durations *)



(** ** Sections of the detail panel *)





(** ** The remote user *)

(** X26. With a host and no user configured, [getUser] asks the host once:
    the first answer that is not empty is kept, and every later call
    returns it without running a command, whatever the host would answer
    then and whichever host is configured by then. When the command fails
    the local user name is what is returned and kept. *)
Theorem getUser_cached (cfg cfg' : SlurmConfig) (username username' : string)
    (whoami whoami' : CommandResult) (remoteUser : option string) :
  sshUser cfg = "" → sshHost cfg ≠ "" → sshUser cfg' = "" → sshHost cfg' ≠ "" →
  let first := getUser cfg username whoami remoteUser in
  (first.1.1 ≠ "" →
     getUser cfg' username' whoami' first.1.2 = (first.1.1, first.1.2, false)) ∧
  (success whoami = false → remoteUser = None →
     first = (username, Some username, true)).
Proof.
  intros Hu Hh Hu' Hh' first. subst first. unfold getUser.
  rewrite Hu, Hu'. simpl Js.truthy. cbv iota.
  destruct (sshHost cfg) as [|a h]; [done|]. destruct (sshHost cfg') as [|a' h']; [done|].
  simpl Js.truthy. cbv iota. split.
  - destruct remoteUser as [[|c s]|]; simpl.
    + intros Hne. by destruct (if success whoami then stdout whoami else username).
    + done.
    + intros Hne. by destruct (if success whoami then stdout whoami else username).
  - by intros -> ->.
Qed.

Lemma getUser_cached_witness :
  let cluster := {|
    refreshInterval := 30; autoRefresh := true;
    sshHost := "login.cluster"; sshUser := ""; sshKeyPath := "";
    squeueFormat := "%i|%j|%P|%T|%M|%l|%D|%R|%S|%e";
    showAllUsers := false; partitionFilter := []; maxJobsDisplayed := 100;
    enableNotifications := true; notifyOnComplete := true; notifyOnFail := true;
    notifyOnStart := false |} in
  getUser cluster "me" (executeCommand (Resolved "somebody" ""))
    (getUser cluster "me" (executeCommand (Resolved "alice" "")) None).1.2
  = ("alice", Some "alice", false).
Proof.
  intros cluster.
  apply (getUser_cached cluster cluster "me" "me"
           (executeCommand (Resolved "alice" "")) (executeCommand (Resolved "somebody" "")) None);
    [reflexivity|discriminate|reflexivity|discriminate|discriminate].
Defined.
